(** * PeekingDuck: the OpenCV multi-object tracker

    A shallow embedding of
    [peekingduck/pipeline/nodes/dabble/utils/tracking_files/opencv_tracking.py]
    (class [OpenCVTracker]) and the proofs of its identity-assignment
    properties.

    Conventions of the embedding:
    - the attributes of [self] that the methods write
      ([first_frame_or_not], [next_object_id], [tracking_dict]) form the
      record [OpenCVTracker]; [tracker_type] and [iou_thresh] are assigned
      once in [__init__] and never again, they are constants;
    - a method is a computation in the state-and-exception monad [M]: it
      takes the object, returns the object as the method leaves it and
      either a value or the Python exception it raised;
    - a Python [dict] is an association list in insertion order with
      Python's update (in place when the key exists, at the end otherwise)
      and delete;
    - IoU scores are rationals: the float arithmetic of numpy is idealised;
    - the OpenCV tracker objects, the image type and the helpers imported
      from [iou_tracker.utils] are gathered in the interface [Cv2World]. *)

From Stdlib Require Import List ZArith QArith Qround Lia Lqa Bool String Ascii.
From Stdlib Require Import Sorted.
From Stdlib Require Decimal DecimalString DecimalZ DecimalPos.
Import ListNotations.

Set Implicit Arguments.

(** ** Exceptions and the state-and-exception monad *)

Inductive exn : Type :=
| ValueError
| IndexError
| KeyError
| AttributeError
| TypeError.

Inductive Result (A : Type) : Type :=
| Ok (a : A)
| Raise (e : exn).

Arguments Ok {A} a.
Arguments Raise {A} e.

Definition M (S A : Type) : Type := S -> Result A * S.

Definition ret {S A : Type} (a : A) : M S A := fun s => (Ok a, s).

Definition raise {S A : Type} (e : exn) : M S A := fun s => (Raise e, s).

Definition bind {S A B : Type} (c : M S A) (k : A -> M S B) : M S B :=
  fun s =>
    match c s with
    | (Ok a, s') => k a s'
    | (Raise e, s') => (Raise e, s')
    end.

Definition get {S : Type} : M S S := fun s => (Ok s, s).

Definition put {S : Type} (s : S) : M S unit := fun _ => (Ok tt, s).

Definition lift {S A : Type} (r : Result A) : M S A := fun s => (r, s).

Declare Scope py_scope.
Delimit Scope py_scope with py.

Notation "x <- c ;; k" := (bind c (fun x => k))
  (at level 61, c at next level, right associativity) : py_scope.
Notation "c ;;; k" := (bind c (fun _ => k))
  (at level 61, right associativity) : py_scope.

Local Open Scope py_scope.

(** [for x in l: body x] *)
Fixpoint for_each {S A : Type} (body : A -> M S unit) (l : list A) : M S unit :=
  match l with
  | [] => ret tt
  | x :: l' => body x ;;; for_each body l'
  end.

(** ** Python dictionaries: insertion-ordered association lists *)

Section PyDict.
Variables K V : Type.
Variable K_eq_dec : forall a b : K, {a = b} + {a <> b}.

Definition dict : Type := list (K * V).

(** [list(d)] and [d.keys()] *)
Definition dict_keys (d : dict) : list K := map fst d.

(** [d.update({k: v})]: an existing key keeps its position and its key
    object, a new key goes to the end. *)
Fixpoint dict_update (d : dict) (k : K) (v : V) : dict :=
  match d with
  | [] => [(k, v)]
  | (k', v') :: d' =>
      if K_eq_dec k' k then (k', v) :: d'
      else (k', v') :: dict_update d' k v
  end.

(** [del d[k]]: [KeyError] when the key is absent. *)
Fixpoint dict_del (d : dict) (k : K) : Result dict :=
  match d with
  | [] => Raise KeyError
  | (k', v') :: d' =>
      if K_eq_dec k' k then Ok d'
      else match dict_del d' k with
           | Ok d'' => Ok ((k', v') :: d'')
           | Raise e => Raise e
           end
  end.
End PyDict.

(** ** Sequences: indexing, [max], [argmax], [round] *)

(** [l[i]] for a non-negative index: [IndexError] out of range. *)
Definition py_index {A : Type} (l : list A) (i : nat) : Result A :=
  match nth_error l i with
  | Some a => Ok a
  | None => Raise IndexError
  end.

(** [l[-1]] *)
Definition py_last {A : Type} (l : list A) : Result A :=
  match rev l with
  | a :: _ => Ok a
  | [] => Raise IndexError
  end.

Definition Qlt_bool (x y : Q) : bool := negb (Qle_bool y x).

(** One step of [max]: the running maximum changes only for a strictly
    larger item. *)
Definition max_step (m y : Q) : Q := if Qlt_bool m y then y else m.

(** Python's [max(seq)]: the first maximal item, [ValueError] on an empty
    sequence. *)
Definition py_max (l : list Q) : Result Q :=
  match l with
  | [] => Raise ValueError
  | x :: l' => Ok (fold_left max_step l' x)
  end.

(** numpy's [a.argmax()]: the index of the first occurrence of the maximum,
    [ValueError] on an empty array. *)
Fixpoint argmax_from (best : Q) (besti i : nat) (l : list Q) : nat :=
  match l with
  | [] => besti
  | y :: l' =>
      if Qlt_bool best y then argmax_from y i (S i) l'
      else argmax_from best besti (S i) l'
  end.

Definition argmax (l : list Q) : Result nat :=
  match l with
  | [] => Raise ValueError
  | x :: l' => Ok (argmax_from x 0 1 l')
  end.

(** Rounding to the nearest integer, halves to the even neighbour. *)
Definition rint (x : Q) : Z :=
  let f := Qfloor x in
  match Qcompare (x - inject_Z f) (1 # 2) with
  | Lt => f
  | Gt => (f + 1)%Z
  | Eq => if Z.even f then f else (f + 1)%Z
  end.

(** [round(x, 1)] *)
Definition round1 (x : Q) : Q := inject_Z (rint (x * inject_Z 10)) / inject_Z 10.

(** [str(n)] for an integer *)
Definition str (n : Z) : string := DecimalString.NilZero.string_of_int (Z.to_int n).

(** ** The collaborators of the tracker *)

(** [trackerTypes] *)
Definition trackerTypes : list string :=
  ["BOOSTING"; "MIL"; "KCF"; "TLD"; "MEDIANFLOW"; "GOTURN"; "MOSSE"; "CSRT"]%string.

(** The constructors [cv2.Tracker..._create], in the order of
    [trackerTypes]. *)
Inductive TrackerKind : Type :=
| Boosting | MIL | KCF | TLD | MedianFlow | GOTURN | MOSSE | CSRT.

(** What the tracker is given from outside: OpenCV's single-object trackers,
    the image array, and the two helpers of [iou_tracker.utils]. *)
Class Cv2World : Type := {
  (** an image array of shape (height, width, channels) *)
  Frame : Type;
  frame_shape : Frame -> Z * Z;
  (** a row of the detection array, normalized [x1, y1, x2, y2] *)
  NBox : Type;
  (** a box in frame coordinates; [tuple(box)] keys compare by value *)
  Box : Type;
  Box_eq_dec : forall a b : Box, {a = b} + {a <> b};
  (** Modelled from the spec: [format_boxes] of [iou_tracker.utils] is not
      among the sources; it scales each normalized box by the frame's
      height and width, and this is what it does to one box. *)
  format_box : Z -> Z -> NBox -> Box;
  (** Modelled from the spec: [iou] of [iou_tracker.utils] is not among the
      sources; this is the score of one box against one candidate. *)
  iou1 : Box -> Box -> Q;
  (** a single-object tracker object, with its internal state *)
  Tracker : Type;
  cv2_create : TrackerKind -> Tracker;
  (** [tracker.init(frame, bbox)] *)
  cv2_init : Tracker -> Frame -> Box -> Tracker;
  (** [tracker.update(frame)]: the tracker as the call leaves it, and the
      returned pair [(success, bbox)] *)
  cv2_update : Tracker -> Frame -> Tracker * (bool * Box)
}.

Section Model.
Context {W : Cv2World}.

(** Modelled from the spec: [format_boxes(boxes, frame_height,
    frame_width)] of [iou_tracker.utils], which is not among the sources:
    every box of the sequence is converted, an empty input gives an empty
    result. *)
Definition format_boxes (boxes : list NBox) (original_h original_w : Z)
  : list Box :=
  map (format_box original_h original_w) boxes.

(** Modelled from the spec: [iou(box, candidate_boxes)] of
    [iou_tracker.utils], which is not among the sources: one score per
    candidate, an empty result for zero candidates. *)
Definition iou (box : Box) (candidates : list Box) : list Q :=
  map (iou1 box) candidates.

(** [np.copy] returns a new array with the same contents: on values it is
    the identity (the store-level model is in [Section Store]). *)
Definition np_copy {A : Type} (a : A) : A := a.

(** *** The object *)

(** An entry of [tracking_dict]: the list [[Tracker, bbox(prev)]]. *)
Definition Track : Type := (Tracker * Box)%type.

Record OpenCVTracker : Type := mkOpenCVTracker {
  first_frame_or_not : bool;
  next_object_id : Z;
  tracking_dict : dict Z Track
}.

Definition tracker_type : string := "MOSSE"%string.

Definition iou_thresh : Q := 1 # 10.

(** [__init__] *)
Definition __init__ : OpenCVTracker :=
  {| first_frame_or_not := true;
     next_object_id := 0;
     tracking_dict := [] |}.

Definition Py : Type -> Type := M OpenCVTracker.

(** [_create_tracker_by_name]: [None] is Python's [None]. *)
Definition _create_tracker_by_name (trackerType : string) : option Tracker :=
  if String.eqb trackerType (nth 0 trackerTypes ""%string) then
    Some (cv2_create Boosting)
  else if String.eqb trackerType (nth 1 trackerTypes ""%string) then
    Some (cv2_create MIL)
  else if String.eqb trackerType (nth 2 trackerTypes ""%string) then
    Some (cv2_create KCF)
  else if String.eqb trackerType (nth 3 trackerTypes ""%string) then
    Some (cv2_create TLD)
  else if String.eqb trackerType (nth 4 trackerTypes ""%string) then
    Some (cv2_create MedianFlow)
  else if String.eqb trackerType (nth 5 trackerTypes ""%string) then
    Some (cv2_create GOTURN)
  else if String.eqb trackerType (nth 6 trackerTypes ""%string) then
    Some (cv2_create MOSSE)
  else if String.eqb trackerType (nth 7 trackerTypes ""%string) then
    Some (cv2_create CSRT)
  else None.

(** [_initialize_tracker]: calling [init] on [None] is an
    [AttributeError]. *)
Definition _initialize_tracker (bbox : Box) (frame : Frame)
  : Py (dict Z Track) :=
  match _create_tracker_by_name tracker_type with
  | None => raise AttributeError
  | Some tracker =>
      let tracker := cv2_init tracker frame bbox in
      s <- get ;;
      let s := {| first_frame_or_not := first_frame_or_not s;
                  next_object_id := (next_object_id s + 1)%Z;
                  tracking_dict := tracking_dict s |} in
      put {| first_frame_or_not := first_frame_or_not s;
             next_object_id := next_object_id s;
             tracking_dict :=
               dict_update Z.eq_dec (tracking_dict s)
                           (next_object_id s) (tracker, bbox) |} ;;;
      s <- get ;;
      ret (tracking_dict s)
  end.

(** The conditional expression
    [ious.argmax() if round(max(ious), 1) >= self.iou_thresh else None]:
    the condition is evaluated first. *)
Definition highest_iou_index (ious : list Q) : Result (option nat) :=
  match py_max ious with
  | Raise e => Raise e
  | Ok m =>
      if Qle_bool iou_thresh (round1 m) then
        match argmax ious with
        | Ok i => Ok (Some i)
        | Raise e => Raise e
        end
      else Ok None
  end.

(** The loop [for box in bboxes] of [_if_new_bbox_add_track], which fills
    [matching_dict]. *)
Fixpoint match_boxes (prev_frame_tracked_bbox : list Box)
         (matching_dict : dict Box (option nat)) (bboxes : list Box)
  : Result (dict Box (option nat)) :=
  match bboxes with
  | [] => Ok matching_dict
  | box :: bboxes' =>
      let ious := iou box prev_frame_tracked_bbox in
      match highest_iou_index ious with
      | Raise e => Raise e
      | Ok prev_frame_bbox_highest_iou_index =>
          match_boxes prev_frame_tracked_bbox
            (dict_update Box_eq_dec matching_dict box
                         prev_frame_bbox_highest_iou_index)
            bboxes'
      end
  end.

(** The loop [for k, v in matching_dict.items()], which fills
    [track_id]. *)
Fixpoint tag_matches (frame : Frame) (track_id : list string)
         (items : list (Box * option nat)) : Py (list string) :=
  match items with
  | [] => ret track_id
  | (k, v) :: items' =>
      match v with
      | Some v =>
          s <- get ;;
          id <- lift (py_index (dict_keys (tracking_dict s)) v) ;;
          tag_matches frame (track_id ++ [str id]) items'
      | None =>
          _initialize_tracker k frame ;;;
          s <- get ;;
          id <- lift (py_last (dict_keys (tracking_dict s))) ;;
          tag_matches frame (track_id ++ [str id]) items'
      end
  end.

(** The list comprehension that replaces duplicate tags:
    [obj_tags.append(x) if x not in obj_tags else obj_tags.append("")]. *)
Fixpoint replace_duplicates (obj_tags : list string) (track_id : list string)
  : list string :=
  match track_id with
  | [] => obj_tags
  | x :: track_id' =>
      if in_dec string_dec x obj_tags
      then replace_duplicates (obj_tags ++ [""%string]) track_id'
      else replace_duplicates (obj_tags ++ [x]) track_id'
  end.

(** [_if_new_bbox_add_track] *)
Definition _if_new_bbox_add_track (bboxes : list Box) (frame : Frame)
  : Py (list string) :=
  s <- get ;;
  let prev_frame_tracked_bbox :=
    map (fun kv : Z * Track => snd (snd kv)) (tracking_dict s) in
  matching_dict <- lift (match_boxes prev_frame_tracked_bbox [] bboxes) ;;
  track_id <- tag_matches frame [] matching_dict ;;
  ret (replace_duplicates [] track_id).

(** The body of the loop over [self.tracking_dict.copy().items()]. *)
Definition update_track (frame : Frame) (item : Z * Track) : Py unit :=
  let (id, tracker) := item in
  let '(tracker0, (success, bbox)) := cv2_update (fst tracker) frame in
  s <- get ;;
  if success then
    put {| first_frame_or_not := first_frame_or_not s;
           next_object_id := next_object_id s;
           tracking_dict :=
             dict_update Z.eq_dec (tracking_dict s) id (tracker0, bbox) |}
  else
    d <- lift (dict_del Z.eq_dec (tracking_dict s) id) ;;
    put {| first_frame_or_not := first_frame_or_not s;
           next_object_id := next_object_id s;
           tracking_dict := d |}.

(** The update pass at the end of [run]. *)
Definition update_all (frame : Frame) : Py unit :=
  s <- get ;;
  for_each (update_track frame) (np_copy (tracking_dict s)).

Record Inputs : Type := mkInputs {
  img : Frame;
  bboxes : list NBox
}.

(** Lines 55 to 80 of [run]: what happens once [frame] and [bboxes] are
    bound to the copied image and the formatted copy of the boxes. *)
Definition track_frame (frame : Frame) (bboxes : list Box) : Py (list string) :=
  s <- get ;;
  obj_tags <-
    (if first_frame_or_not s then
       for_each (fun bbox => _initialize_tracker bbox frame ;;; ret tt)
                bboxes ;;;
       s <- get ;;
       let track_id := dict_keys (tracking_dict s) in
       let obj_tags := map str track_id in
       put {| first_frame_or_not := false;
              next_object_id := next_object_id s;
              tracking_dict := tracking_dict s |} ;;;
       ret obj_tags
     else _if_new_bbox_add_track bboxes frame) ;;
  update_all frame ;;;
  ret obj_tags.

(** [run] *)
Definition run (inputs : Inputs) : Py (list string) :=
  let frame := np_copy (img inputs) in
  let '(original_h, original_w) := frame_shape frame in
  let bboxes := np_copy (bboxes inputs) in
  let bboxes := format_boxes bboxes original_h original_w in
  track_frame frame bboxes.

(** Running the tracker over a sequence of frames; the run stops at the
    first exception. *)
Fixpoint run_all (frames : list Inputs) : Py (list (list string)) :=
  match frames with
  | [] => ret []
  | i :: frames' =>
      tags <- run i ;;
      rest <- run_all frames' ;;
      ret (tags :: rest)
  end.
End Model.

(** ** The caller's arrays: a store with aliasing

    [inputs["img"]] and [inputs["bboxes"]] are references to numpy arrays
    that the caller still holds after the call.  The store is the list of
    the arrays allocated so far, a reference is a position in it. *)

Section Store.
Context {W : Cv2World}.

Inductive ndarray : Type :=
| ImageArray (pixels : Frame)
| BoxArray (rows : list NBox)
| PixelBoxArray (rows : list Box).

Definition Store : Type := list ndarray.

Definition ref : Type := nat.

Definition Heap : Type := (Store * OpenCVTracker)%type.

Definition alloc (a : ndarray) : M Heap ref :=
  fun h => (Ok (List.length (fst h)), (fst h ++ [a], snd h)).

(** A reference that Python holds is always allocated; the model raises
    [TypeError] on the others, and on an array of the wrong kind. *)
Definition deref (r : ref) : M Heap ndarray :=
  fun h =>
    match nth_error (fst h) r with
    | Some a => (Ok a, h)
    | None => (Raise TypeError, h)
    end.

Fixpoint set_nth {A : Type} (l : list A) (i : nat) (a : A) : list A :=
  match l, i with
  | [], _ => []
  | _ :: l', O => a :: l'
  | x :: l', S i' => x :: set_nth l' i' a
  end.

Definition assign (r : ref) (a : ndarray) : M Heap unit :=
  fun h => (Ok tt, (set_nth (fst h) r a, snd h)).

(** [np.copy(a)]: a new array with the contents of [a]. *)
Definition np_copy_ref (r : ref) : M Heap ref :=
  a <- deref r ;;
  alloc a.

(** [format_boxes] is not among the sources, and whether it writes the
    converted rows into its argument or into a new array is not fixed by
    its signature: both behaviours are modelled. *)
Inductive FormatMode : Type := InPlace | FreshArray.

Definition format_boxes_ref (mode : FormatMode) (r : ref)
           (original_h original_w : Z) : M Heap ref :=
  a <- deref r ;;
  match a with
  | BoxArray rows =>
      let px := PixelBoxArray (format_boxes rows original_h original_w) in
      match mode with
      | InPlace => assign r px ;;; ret r
      | FreshArray => alloc px
      end
  | _ => raise TypeError
  end.

(** A method of the tracker, run next to the store. *)
Definition on_tracker {A : Type} (c : Py A) : M Heap A :=
  fun h => let (r, s) := c (snd h) in (r, (fst h, s)).

(** The dictionary [inputs], with its two entries. *)
Record InputRefs : Type := mkInputRefs {
  img_ref : ref;
  bboxes_ref : ref
}.

(** [run], on references. *)
Definition run_store (mode : FormatMode) (inputs : InputRefs)
  : M Heap (list string) :=
  frame <- np_copy_ref (img_ref inputs) ;;
  pixels <- deref frame ;;
  match pixels with
  | ImageArray pixels =>
      let '(original_h, original_w) := frame_shape pixels in
      bboxes <- np_copy_ref (bboxes_ref inputs) ;;
      bboxes <- format_boxes_ref mode bboxes original_h original_w ;;
      rows <- deref bboxes ;;
      match rows with
      | PixelBoxArray rows => on_tracker (track_frame pixels rows)
      | _ => raise TypeError
      end
  | _ => raise TypeError
  end.

(** Every array of the first store is in the second, at the same
    reference and with the same contents. *)
Definition preserved (st st' : Store) : Prop :=
  forall r a, nth_error st r = Some a -> nth_error st' r = Some a.
End Store.

(** ** Descriptions of states and of what a frame does to them

    The vocabulary of the statements below: the ids and the stored boxes of
    the registry, the invariant of the object, and closed forms of the four
    loops. *)

Section Descriptions.
Context {W : Cv2World}.

(** The ids of the registry, in iteration order. *)
Definition registry_ids (s : OpenCVTracker) : list Z :=
  dict_keys (tracking_dict s).

(** The boxes stored in the registry, in iteration order: what
    [_if_new_bbox_add_track] collects in [prev_frame_tracked_bbox]. *)
Definition last_bboxes (s : OpenCVTracker) : list Box :=
  map (fun kv : Z * Track => snd (snd kv)) (tracking_dict s).

(** The state after the first call of [run]. *)
Definition running (s : OpenCVTracker) : Prop :=
  first_frame_or_not s = false.

(** The invariant of the object: the ids of the registry increase strictly
    along the iteration order and none exceeds [next_object_id]. *)
Definition wf (s : OpenCVTracker) : Prop :=
  StronglySorted Z.lt (registry_ids s) /\
  Forall (fun k => (0 < k <= next_object_id s)%Z) (registry_ids s) /\
  (0 <= next_object_id s)%Z.

(** The index that the matching loop stores for a box when the registry is
    not empty. *)
Definition matched (prev : list Box) (box : Box) : option nat :=
  match highest_iou_index (iou box prev) with
  | Ok v => v
  | Raise _ => None
  end.

(** The keys of a dictionary that is filled from a sequence of boxes: each
    box at its first occurrence. *)
Fixpoint first_occurrences (seen bs : list Box) : list Box :=
  match bs with
  | [] => seen
  | b :: bs' =>
      if in_dec Box_eq_dec b seen then first_occurrences seen bs'
      else first_occurrences (seen ++ [b]) bs'
  end.

(** The content of [matching_dict] after the matching loop. *)
Definition matching_items (prev bs : list Box) : list (Box * option nat) :=
  map (fun b => (b, matched prev b)) (first_occurrences [] bs).

(** The ids that the tagging loop reads for the items of [matching_dict],
    from the ids [ks] of the registry and the counter [n] before the loop. *)
Fixpoint assigned_ids (ks : list Z) (n : Z) (items : list (Box * option nat))
  : list Z :=
  match items with
  | [] => []
  | (_, Some v) :: items' => nth v ks 0%Z :: assigned_ids ks n items'
  | (_, None) :: items' => (n + 1)%Z :: assigned_ids ks (n + 1) items'
  end.

(** The tracks that the tagging loop adds to the registry. *)
Fixpoint new_tracks (frame : Frame) (n : Z) (items : list (Box * option nat))
  : dict Z Track :=
  match items with
  | [] => []
  | (_, Some _) :: items' => new_tracks frame n items'
  | (k, None) :: items' =>
      ((n + 1)%Z, (cv2_init (cv2_create MOSSE) frame k, k))
        :: new_tracks frame (n + 1) items'
  end.

(** The number of unmatched items. *)
Definition unmatched (items : list (Box * option nat)) : nat :=
  List.length (filter (fun kv => match snd kv with None => true | _ => false end)
                      items).

(** The registry after the update pass: the tracks whose tracker reports
    success, with the tracker as [update] leaves it and the box it
    returns. *)
Definition survivors (frame : Frame) (d : dict Z Track) : dict Z Track :=
  flat_map (fun kv : Z * Track =>
              let '(tracker0, (success, bbox)) :=
                cv2_update (fst (snd kv)) frame in
              if success then [(fst kv, (tracker0, bbox))] else [])
           d.

(** The boxes of a call of [run], as [format_boxes] returns them. *)
Definition formatted (inputs : Inputs) : list Box :=
  format_boxes (bboxes inputs)
               (fst (frame_shape (img inputs)))
               (snd (frame_shape (img inputs))).

(** What the association returns, from the ids and the stored boxes of the
    registry, the counter and the boxes of the frame alone. *)
Definition association_tags (ks : list Z) (prev : list Box) (n : Z)
           (bs : list Box) : Result (list string) :=
  match prev, bs with
  | [], _ :: _ => Raise ValueError
  | _, _ =>
      Ok (replace_duplicates
            [] (map str (assigned_ids ks n (matching_items prev bs))))
  end.

(** The object after the update pass. *)
Definition after_update (frame : Frame) (s : OpenCVTracker) : OpenCVTracker :=
  {| first_frame_or_not := first_frame_or_not s;
     next_object_id := next_object_id s;
     tracking_dict := survivors frame (tracking_dict s) |}.

(** The object between two calls of [run]: well formed, and either running
    or as [__init__] made it. *)
Definition inv (s : OpenCVTracker) : Prop :=
  wf s /\ (first_frame_or_not s = true -> s = __init__).
End Descriptions.

(** ** A concrete world, for running the tracker on examples

    Boxes are corner boxes with rational coordinates in lowest terms, a
    frame says which boxes its trackers lose, and a tracker remembers the
    box it was initialized on. *)

Module Demo.

Definition DBox : Type := (Q * Q * Q * Q)%type.

Definition Q_eq_dec (a b : Q) : {a = b} + {a <> b}.
Proof.
  decide equality; [apply Pos.eq_dec | apply Z.eq_dec].
Defined.

Definition DBox_eq_dec (a b : DBox) : {a = b} + {a <> b}.
Proof.
  repeat decide equality.
Defined.

Record DFrame : Type := mkDFrame {
  height : Z;
  width : Z;
  lost : list DBox
}.

Definition dformat_box (h w : Z) (b : DBox) : DBox :=
  let '(x1, y1, x2, y2) := b in
  (Qred (x1 * inject_Z w), Qred (y1 * inject_Z h),
   Qred (x2 * inject_Z w), Qred (y2 * inject_Z h)).

Definition Qmax (a b : Q) : Q := if Qle_bool a b then b else a.
Definition Qmin (a b : Q) : Q := if Qle_bool a b then a else b.

Definition area (b : DBox) : Q :=
  let '(x1, y1, x2, y2) := b in
  Qmax 0 (x2 - x1) * Qmax 0 (y2 - y1).

(** Intersection area over (area + area - intersection), 0 when the boxes
    do not overlap or are degenerate. *)
Definition diou1 (a b : DBox) : Q :=
  let '(ax1, ay1, ax2, ay2) := a in
  let '(bx1, by1, bx2, by2) := b in
  let iw := Qmax 0 (Qmin ax2 bx2 - Qmax ax1 bx1) in
  let ih := Qmax 0 (Qmin ay2 by2 - Qmax ay1 by1) in
  let inter := iw * ih in
  let union := area a + area b - inter in
  if Qle_bool union 0 then 0 else Qred (inter / union).

Definition DTracker : Type := option DBox.

Definition dupdate (t : DTracker) (f : DFrame) : DTracker * (bool * DBox) :=
  match t with
  | Some b =>
      (t, (negb (existsb (fun l => if DBox_eq_dec l b then true else false)
                         (lost f)), b))
  | None => (t, (false, (0, 0, 0, 0)))
  end.

#[export] Instance demo : Cv2World := {|
  Frame := DFrame;
  frame_shape := fun f => (height f, width f);
  NBox := DBox;
  Box := DBox;
  Box_eq_dec := DBox_eq_dec;
  format_box := dformat_box;
  iou1 := diou1;
  Tracker := DTracker;
  cv2_create := fun _ => None;
  cv2_init := fun _ _ b => Some b;
  cv2_update := dupdate
|}.

(** A 100 x 100 frame on which no tracker fails, and one on which the
    trackers of the listed boxes fail. *)
Definition calm : DFrame := mkDFrame 100 100 [].
Definition losing (l : list DBox) : DFrame := mkDFrame 100 100 l.

(** Normalized boxes: the unit square's four quadrants' centres. *)
Definition boxA : DBox := (0, 0, 2 # 5, 2 # 5).
Definition boxB : DBox := (3 # 5, 3 # 5, 1, 1).
Definition boxA' : DBox := (1 # 10, 0, 1 # 2, 2 # 5).
Definition boxA'' : DBox := (0, 1 # 10, 2 # 5, 1 # 2).

Definition px (b : DBox) : DBox := dformat_box 100 100 b.

Definition frame_of (f : DFrame) (l : list DBox) : Inputs :=
  {| img := f; bboxes := l |}.


(** The object after a first frame without detections, with one detection
    and with two detections. *)
Definition s_none : OpenCVTracker := snd (run (frame_of calm []) __init__).
Definition s_one : OpenCVTracker := snd (run (frame_of calm [boxA]) __init__).
Definition s_two : OpenCVTracker := snd (run (frame_of calm [boxA; boxB]) __init__).

(** The object after a first frame with two detections of the same box:
    two tracks with the same stored box. *)
Definition s_twins : OpenCVTracker :=
  snd (run (frame_of calm [boxA; boxA]) __init__).

(** Two tracks, then a frame on which the tracker of the first one fails. *)
Definition evict_first : list Inputs :=
  [frame_of calm [boxA; boxB]; frame_of (losing [px boxA]) []].

(** The caller's store: an image and an array with one box. *)
Definition caller_store : Store := [ImageArray calm; BoxArray [boxA]].
Definition caller_inputs : InputRefs :=
  {| img_ref := 0%nat; bboxes_ref := 1%nat |}.

(** The object after two tracks were created and the tracker of the second
    one failed. *)
Definition s_lost_second : OpenCVTracker :=
  snd (run (frame_of (losing [px boxB]) []) s_two).

End Demo.


(** ** More vocabulary: lookups, tracker kinds, labelled tags *)

Section PyDictLookup.
Variables K V : Type.
Variable K_eq_dec : forall a b : K, {a = b} + {a <> b}.

(** [d[k]]: [KeyError] when the key is absent. *)
Fixpoint dict_get (d : dict K V) (k : K) : Result V :=
  match d with
  | [] => Raise KeyError
  | (k', v) :: d' => if K_eq_dec k' k then Ok v else dict_get d' k
  end.
End PyDictLookup.

(** The constructors that [_create_tracker_by_name] calls, in the order of
    its branches. *)
Definition trackerKinds : list TrackerKind :=
  [Boosting; MIL; KCF; TLD; MedianFlow; GOTURN; MOSSE; CSRT].

(** The tags of an output list that are not the empty string. *)
Definition labelled (tags : list string) : list string :=
  filter (fun t => negb (String.eqb t ""%string)) tags.

(** * Properties *)

Unset Implicit Arguments.

Ltac run_monad :=
  unfold bind, get, put, ret, lift, raise; simpl.

(** ** [str] *)

Lemma to_int_not_nil (n : Z) :
  Z.to_int n <> Decimal.Pos Decimal.Nil /\ Z.to_int n <> Decimal.Neg Decimal.Nil.
Proof.
  destruct n as [|p|p]; simpl; split; try discriminate;
    intros H; injection H as H;
    pose proof (DecimalPos.Unsigned.to_uint_nonnil p) as Hp; congruence.
Qed.

Lemma str_parse (n : Z) :
  DecimalString.NilZero.int_of_string (str n) = Some (Z.to_int n).
Proof.
  unfold str. destruct (to_int_not_nil n) as [H1 H2].
  now apply DecimalString.NilZero.isi.
Qed.

Lemma str_inj (a b : Z) : str a = str b -> a = b.
Proof.
  intros H.
  assert (E : Some (Z.to_int a) = Some (Z.to_int b))
    by (rewrite <- !str_parse; now rewrite H).
  injection E as E.
  rewrite <- (DecimalZ.of_to a), <- (DecimalZ.of_to b). now rewrite E.
Qed.

Lemma str_nonempty (a : Z) : str a <> ""%string.
Proof.
  intros H. pose proof (str_parse a) as P. rewrite H in P. discriminate.
Qed.

(** ** Dictionaries *)

Section DictFacts.
Variables K V : Type.
Variable K_eq_dec : forall a b : K, {a = b} + {a <> b}.

Lemma dict_update_fresh (d : dict K V) (k : K) (v : V) :
  ~ In k (dict_keys d) -> dict_update K_eq_dec d k v = d ++ [(k, v)].
Proof.
  induction d as [|[k' v'] d IH]; simpl; intros H; [reflexivity|].
  destruct (K_eq_dec k' k) as [->|N]; [tauto|].
  rewrite IH; tauto.
Qed.

Lemma dict_update_middle (p q : dict K V) (k : K) (v v' : V) :
  ~ In k (dict_keys p) ->
  dict_update K_eq_dec (p ++ (k, v) :: q) k v' = p ++ (k, v') :: q.
Proof.
  induction p as [|[k' w] p IH]; simpl; intros H.
  - destruct (K_eq_dec k k); congruence.
  - destruct (K_eq_dec k' k) as [->|N]; [tauto|].
    rewrite IH; tauto.
Qed.

Lemma dict_del_middle (p q : dict K V) (k : K) (v : V) :
  ~ In k (dict_keys p) ->
  dict_del K_eq_dec (p ++ (k, v) :: q) k = Ok (p ++ q).
Proof.
  induction p as [|[k' w] p IH]; simpl; intros H.
  - destruct (K_eq_dec k k); congruence.
  - destruct (K_eq_dec k' k) as [->|N]; [tauto|].
    rewrite IH; tauto.
Qed.

Lemma dict_update_same (d : dict K V) (k : K) (v : V) :
  In (k, v) d -> NoDup (dict_keys d) -> dict_update K_eq_dec d k v = d.
Proof.
  induction d as [|[k' v'] d IH]; simpl; intros HI HN; [tauto|].
  inversion HN as [|? ? Hk Hd]; subst.
  destruct (K_eq_dec k' k) as [->|N].
  - destruct HI as [E|HI]; [congruence|].
    exfalso. apply Hk. change k with (fst (k, v)). now apply in_map.
  - destruct HI as [E|HI]; [congruence|].
    now rewrite IH.
Qed.
End DictFacts.

(** ** [max] and [argmax] *)

Lemma Qlt_bool_true (x y : Q) : Qlt_bool x y = true <-> x < y.
Proof.
  unfold Qlt_bool. rewrite negb_true_iff.
  split.
  - intros H. apply Qnot_le_lt. intros L.
    apply Qle_bool_iff in L. congruence.
  - intros H. destruct (Qle_bool y x) eqn:E; [|reflexivity].
    apply Qle_bool_iff in E. lra.
Qed.

Lemma Qlt_bool_false (x y : Q) : Qlt_bool x y = false <-> y <= x.
Proof.
  unfold Qlt_bool. rewrite negb_false_iff. apply Qle_bool_iff.
Qed.

Lemma argmax_from_spec (l pre : list Q) (best : Q) (besti : nat) :
  nth_error pre besti = Some best ->
  (forall j y, nth_error pre j = Some y -> y <= best) ->
  (forall j y, (j < besti)%nat -> nth_error pre j = Some y -> y < best) ->
  let r := argmax_from best besti (List.length pre) l in
  let m := fold_left max_step l best in
  nth_error (pre ++ l) r = Some m /\
  (forall j y, nth_error (pre ++ l) j = Some y -> y <= m) /\
  (forall j y, (j < r)%nat -> nth_error (pre ++ l) j = Some y -> y < m).
Proof.
  revert pre best besti.
  induction l as [|y l IH]; intros pre best besti Hb Hle Hlt;
    cbn [argmax_from fold_left].
  - rewrite app_nil_r. auto.
  - assert (Hlen : List.length (pre ++ [y]) = S (List.length pre))
      by (rewrite length_app; simpl; lia).
    destruct (Qlt_bool best y) eqn:E.
    + replace (max_step best y) with y by (unfold max_step; now rewrite E).
      apply Qlt_bool_true in E.
      specialize (IH (pre ++ [y]) y (List.length pre)).
      rewrite Hlen, <- app_assoc in IH. simpl in IH.
      apply IH.
      * rewrite nth_error_app2 by lia. now rewrite Nat.sub_diag.
      * intros j z Hj.
        destruct (Nat.lt_ge_cases j (List.length pre)) as [L|G].
        -- rewrite nth_error_app1 in Hj by lia.
           specialize (Hle _ _ Hj). lra.
        -- rewrite nth_error_app2 in Hj by lia.
           destruct (j - List.length pre)%nat as [|[|]]; simpl in Hj;
             try discriminate. injection Hj as <-. lra.
      * intros j z L Hj. rewrite nth_error_app1 in Hj by lia.
        specialize (Hle _ _ Hj). lra.
    + replace (max_step best y) with best
        by (unfold max_step; now rewrite E).
      apply Qlt_bool_false in E.
      specialize (IH (pre ++ [y]) best besti).
      rewrite Hlen, <- app_assoc in IH. simpl in IH.
      assert (Hbi : (besti < List.length pre)%nat)
        by (apply nth_error_Some; congruence).
      apply IH.
      * rewrite nth_error_app1 by lia. assumption.
      * intros j z Hj.
        destruct (Nat.lt_ge_cases j (List.length pre)) as [L|G].
        -- rewrite nth_error_app1 in Hj by lia. eauto.
        -- rewrite nth_error_app2 in Hj by lia.
           destruct (j - List.length pre)%nat as [|[|]]; simpl in Hj;
             try discriminate. now injection Hj as <-.
      * intros j z L Hj. rewrite nth_error_app1 in Hj by lia. eauto.
Qed.

(** The maximum and the index of its first occurrence, for a non-empty
    sequence. *)
Lemma max_argmax (l : list Q) :
  l <> [] ->
  exists m i,
    py_max l = Ok m /\ argmax l = Ok i /\
    nth_error l i = Some m /\
    (forall j y, nth_error l j = Some y -> y <= m) /\
    (forall j y, (j < i)%nat -> nth_error l j = Some y -> y < m).
Proof.
  destruct l as [|x l]; [congruence|]. intros _.
  exists (fold_left max_step l x), (argmax_from x 0 1 l).
  split; [reflexivity|]. split; [reflexivity|].
  apply (argmax_from_spec l [x] x 0).
  - reflexivity.
  - intros [|[|j]] y H; simpl in H; try discriminate.
    injection H as <-. lra.
  - intros j y L. lia.
Qed.

(** ** Sorted lists of ids *)

Lemma sorted_snoc (ks : list Z) (k : Z) :
  StronglySorted Z.lt ks -> Forall (fun x => (x < k)%Z) ks ->
  StronglySorted Z.lt (ks ++ [k]).
Proof.
  induction 1 as [|x ks Hs IH Hx]; intros HF; simpl.
  - repeat constructor.
  - inversion HF; subst. constructor; [auto|].
    apply Forall_app. split; [assumption|]. now constructor.
Qed.

Lemma sorted_NoDup (ks : list Z) : StronglySorted Z.lt ks -> NoDup ks.
Proof.
  induction 1 as [|x ks Hs IH Hx]; constructor; [|assumption].
  intros HI. rewrite Forall_forall in Hx. specialize (Hx _ HI). lia.
Qed.

Lemma sorted_nth_lt (ks : list Z) (i j : nat) (a b : Z) :
  StronglySorted Z.lt ks -> (i < j)%nat ->
  nth_error ks i = Some a -> nth_error ks j = Some b -> (a < b)%Z.
Proof.
  intros Hs. revert i j.
  induction Hs as [|x ks Hs IH Hx]; intros i j L Hi Hj.
  - destruct i; discriminate.
  - destruct j as [|j]; [lia|]. simpl in Hj.
    destruct i as [|i]; simpl in Hi.
    + injection Hi as <-. rewrite Forall_forall in Hx.
      apply Hx. eapply nth_error_In; eauto.
    + apply (IH i j); auto. lia.
Qed.

(** ** The methods, one by one *)

Section Methods.
Context {W : Cv2World}.

Lemma create_mosse :
  _create_tracker_by_name tracker_type = Some (cv2_create MOSSE).
Proof. reflexivity. Qed.

Lemma wf_fresh (s : OpenCVTracker) :
  wf s -> ~ In (next_object_id s + 1)%Z (registry_ids s).
Proof.
  intros (_ & HF & _) HI. rewrite Forall_forall in HF.
  specialize (HF _ HI). lia.
Qed.

(** [_initialize_tracker] appends one track under the next id. *)
Lemma initialize_tracker_spec (bbox : Box) (frame : Frame) (s : OpenCVTracker) :
  wf s ->
  let s' := {| first_frame_or_not := first_frame_or_not s;
               next_object_id := (next_object_id s + 1)%Z;
               tracking_dict :=
                 tracking_dict s ++
                 [((next_object_id s + 1)%Z,
                   (cv2_init (cv2_create MOSSE) frame bbox, bbox))] |} in
  _initialize_tracker bbox frame s = (Ok (tracking_dict s'), s') /\ wf s'.
Proof.
  intros Hwf. pose proof (wf_fresh s Hwf) as Hfresh.
  unfold _initialize_tracker. rewrite create_mosse. run_monad.
  rewrite dict_update_fresh by exact Hfresh.
  split; [reflexivity|].
  destruct Hwf as (Hs & HF & Hn).
  unfold wf, registry_ids, dict_keys in *. simpl.
  rewrite map_app. simpl.
  split; [|split].
  - apply sorted_snoc; [assumption|].
    eapply Forall_impl; [|exact HF]. simpl. intros; lia.
  - apply Forall_app. split.
    + eapply Forall_impl; [|exact HF]. simpl. intros; lia.
    + constructor; [lia|constructor].
  - lia.
Qed.

(** The update pass: nothing is raised, and the registry is left with the
    tracks whose tracker succeeded. *)
Lemma update_loop_spec (frame : Frame) (q p : dict Z Track) (f : bool) (n : Z) :
  NoDup (dict_keys (p ++ q)) ->
  for_each (update_track frame) q
           {| first_frame_or_not := f; next_object_id := n;
              tracking_dict := p ++ q |}
  = (Ok tt, {| first_frame_or_not := f; next_object_id := n;
               tracking_dict := p ++ survivors frame q |}).
Proof.
  revert p. induction q as [|[id [t b]] q IH]; intros p HN.
  - reflexivity.
  - assert (Hp : ~ In id (dict_keys p)).
    { unfold dict_keys in *. rewrite map_app in HN. simpl in HN.
      apply NoDup_remove_2 in HN. intros HI. apply HN.
      apply in_or_app. now left. }
    cbn [for_each]. unfold bind at 1. unfold update_track.
    cbn [survivors flat_map fst snd].
    destruct (cv2_update t frame) as [t' [ok b']].
    destruct ok; run_monad.
    + rewrite dict_update_middle by exact Hp.
      change (p ++ (id, (t', b')) :: q) with (p ++ [(id, (t', b'))] ++ q).
      rewrite app_assoc. rewrite IH.
      * now rewrite <- app_assoc.
      * unfold dict_keys in *. rewrite <- app_assoc.
        rewrite map_app in *. simpl in *. exact HN.
    + rewrite dict_del_middle by exact Hp. simpl.
      rewrite IH; [reflexivity|].
      unfold dict_keys in *. rewrite map_app in *. simpl in HN.
      now apply NoDup_remove_1 in HN.
Qed.

Lemma update_all_spec (frame : Frame) (s : OpenCVTracker) :
  wf s ->
  update_all frame s
  = (Ok tt, {| first_frame_or_not := first_frame_or_not s;
               next_object_id := next_object_id s;
               tracking_dict := survivors frame (tracking_dict s) |}).
Proof.
  intros (Hs & _). unfold update_all, np_copy. run_monad.
  destruct s as [f n d]. simpl in *.
  apply (update_loop_spec frame d [] f n).
  simpl. now apply sorted_NoDup.
Qed.

Lemma survivors_keys_in (frame : Frame) (d : dict Z Track) (k : Z) :
  In k (dict_keys (survivors frame d)) -> In k (dict_keys d).
Proof.
  induction d as [|[id [t b]] d IH]; simpl; [tauto|].
  destruct (cv2_update t frame) as [t' [ok b']]. destruct ok; simpl.
  - intros [E|H]; auto.
  - auto.
Qed.

Lemma survivors_sorted (frame : Frame) (d : dict Z Track) :
  StronglySorted Z.lt (dict_keys d) ->
  StronglySorted Z.lt (dict_keys (survivors frame d)).
Proof.
  induction d as [|[id [t b]] d IH]; simpl; intros Hs; [constructor|].
  inversion Hs as [|? ? Hs' Hx]; subst.
  destruct (cv2_update t frame) as [t' [ok b']]. destruct ok; simpl; auto.
  constructor; [auto|].
  rewrite Forall_forall in *. intros k Hk.
  apply Hx. eapply survivors_keys_in; eauto.
Qed.

Lemma survivors_wf (frame : Frame) (s : OpenCVTracker) :
  wf s ->
  wf {| first_frame_or_not := first_frame_or_not s;
        next_object_id := next_object_id s;
        tracking_dict := survivors frame (tracking_dict s) |}.
Proof.
  intros (Hs & HF & Hn). unfold wf, registry_ids in *. simpl.
  split; [|split]; [now apply survivors_sorted| |assumption].
  rewrite Forall_forall in *. intros k Hk.
  apply HF. eapply survivors_keys_in; eauto.
Qed.

(** *** The matching loop *)

Lemma highest_iou_index_empty : highest_iou_index [] = Raise ValueError.
Proof. reflexivity. Qed.

Lemma highest_iou_index_matched (prev : list Box) (box : Box) :
  prev <> [] -> highest_iou_index (iou box prev) = Ok (matched prev box).
Proof.
  intros Hp. unfold matched.
  assert (Hi : iou box prev <> [])
    by (unfold iou; destruct prev; simpl; congruence).
  destruct (max_argmax _ Hi) as (m & i & Hm & Ha & _).
  unfold highest_iou_index. rewrite Hm, Ha.
  now destruct (Qle_bool iou_thresh (round1 m)).
Qed.

Lemma match_boxes_empty_registry (md : dict Box (option nat)) (bs : list Box) :
  bs <> [] -> match_boxes [] md bs = Raise ValueError.
Proof.
  destruct bs; [congruence|reflexivity].
Qed.

Lemma match_boxes_spec (prev : list Box) (bs seen : list Box) :
  prev <> [] -> NoDup seen ->
  match_boxes prev (map (fun b => (b, matched prev b)) seen) bs
  = Ok (map (fun b => (b, matched prev b)) (first_occurrences seen bs)).
Proof.
  intros Hp. revert seen.
  induction bs as [|b bs IH]; intros seen HN; simpl; [reflexivity|].
  rewrite highest_iou_index_matched by assumption.
  assert (Hk : dict_keys (map (fun b => (b, matched prev b)) seen) = seen).
  { unfold dict_keys. rewrite map_map. simpl. apply map_id. }
  destruct (in_dec Box_eq_dec b seen) as [HI|HI].
  - rewrite dict_update_same.
    + now apply IH.
    + apply (in_map (fun b => (b, matched prev b))) in HI. exact HI.
    + now rewrite Hk.
  - rewrite dict_update_fresh by now rewrite Hk.
    change [(b, matched prev b)] with (map (fun b => (b, matched prev b)) [b]).
    rewrite <- map_app. apply IH.
    apply NoDup_app; [assumption|repeat constructor; simpl; tauto|].
    intros x Hx [<-|[]]. contradiction.
Qed.

Lemma first_occurrences_distinct (bs seen : list Box) :
  NoDup (seen ++ bs) -> first_occurrences seen bs = seen ++ bs.
Proof.
  revert seen. induction bs as [|b bs IH]; intros seen HN; simpl.
  - now rewrite app_nil_r.
  - destruct (in_dec Box_eq_dec b seen) as [HI|HI].
    + exfalso. apply NoDup_remove_2 in HN. apply HN.
      apply in_or_app. now left.
    + rewrite IH; rewrite <- app_assoc; simpl; auto.
Qed.

Lemma matched_bound (prev : list Box) (box : Box) (v : nat) :
  matched prev box = Some v -> (v < List.length prev)%nat.
Proof.
  unfold matched, highest_iou_index. intros H.
  destruct prev as [|p prev]; [discriminate|].
  assert (Hi : iou box (p :: prev) <> []) by (simpl; congruence).
  destruct (max_argmax _ Hi) as (m & i & Hm & Ha & Hn & _).
  rewrite Hm, Ha in H.
  destruct (Qle_bool iou_thresh (round1 m)); [|discriminate].
  injection H as <-.
  assert (L : (i < List.length (iou box (p :: prev)))%nat)
    by (apply nth_error_Some; congruence).
  unfold iou in L. now rewrite length_map in L.
Qed.

(** *** The tagging loop *)

Lemma py_index_app {A : Type} (l l' : list A) (i : nat) (d : A) :
  (i < List.length l)%nat -> py_index (l ++ l') i = Ok (nth i l d).
Proof.
  intros L. unfold py_index. rewrite nth_error_app1 by assumption.
  rewrite (nth_error_nth' l d L). reflexivity.
Qed.

Lemma py_last_snoc {A : Type} (l : list A) (a : A) : py_last (l ++ [a]) = Ok a.
Proof.
  unfold py_last. now rewrite rev_app_distr.
Qed.

Lemma tag_matches_spec (frame : Frame) (d0 : dict Z Track)
      (items : list (Box * option nat)) :
  (forall k v, In (k, Some v) items -> (v < List.length d0)%nat) ->
  forall (extra : dict Z Track) (f : bool) (n : Z) (acc : list string),
    wf {| first_frame_or_not := f; next_object_id := n;
          tracking_dict := d0 ++ extra |} ->
    let s' := {| first_frame_or_not := f;
                 next_object_id := (n + Z.of_nat (unmatched items))%Z;
                 tracking_dict := d0 ++ extra ++ new_tracks frame n items |} in
    tag_matches frame acc items
                {| first_frame_or_not := f; next_object_id := n;
                   tracking_dict := d0 ++ extra |}
    = (Ok (acc ++ map str (assigned_ids (dict_keys d0) n items)), s')
    /\ wf s'.
Proof.
  induction items as [|[k [v|]] items IH]; intros Hb extra f n acc Hwf;
    cbv zeta.
  - simpl. rewrite !app_nil_r, Z.add_0_r. auto.
  - change (unmatched ((k, Some v) :: items)) with (unmatched items).
    cbn [tag_matches new_tracks assigned_ids map]. run_monad.
    unfold dict_keys at 1. rewrite map_app.
    rewrite (py_index_app _ _ v 0%Z)
      by (rewrite length_map; apply (Hb k); now left).
    destruct (IH (fun k' v' H => Hb k' v' (or_intror H)) extra f n
                 (acc ++ [str (nth v (map fst d0) 0%Z)]) Hwf) as [E Hwf'].
    rewrite E. rewrite <- app_assoc. simpl. auto.
  - replace (n + Z.of_nat (unmatched ((k, None) :: items)))%Z
      with (n + 1 + Z.of_nat (unmatched items))%Z
      by (unfold unmatched; cbn [filter snd List.length]; lia).
    cbn [tag_matches new_tracks assigned_ids map]. unfold bind at 1.
    destruct (initialize_tracker_spec k frame _ Hwf) as [E Hwf1].
    rewrite E. clear E. cbn beta iota. run_monad.
    unfold dict_keys at 1.
    rewrite map_app. simpl map at 2. rewrite py_last_snoc.
    simpl in Hwf1. rewrite <- app_assoc in Hwf1.
    destruct (IH (fun k' v' H => Hb k' v' (or_intror H))
                 (extra ++ [((n + 1)%Z, (cv2_init (cv2_create MOSSE) frame k, k))])
                 f (n + 1)%Z (acc ++ [str (n + 1)]) Hwf1) as [E Hwf'].
    rewrite <- (app_assoc d0). rewrite E.
    rewrite <- !app_assoc. simpl app.
    rewrite <- !app_assoc in Hwf'. simpl app in Hwf'. auto.
Qed.

(** *** The replacement of duplicate tags *)

Lemma replace_duplicates_prefix (l acc : list string) :
  exists r, replace_duplicates acc l = acc ++ r /\
            List.length r = List.length l.
Proof.
  revert acc. induction l as [|x l IH]; intros acc; simpl.
  - exists []. now rewrite app_nil_r.
  - destruct (in_dec string_dec x acc);
      [destruct (IH (acc ++ [""%string])) as (r & E & L)
      |destruct (IH (acc ++ [x])) as (r & E & L)];
      rewrite E, <- app_assoc; eexists; split; try reflexivity; simpl; lia.
Qed.

Lemma replace_duplicates_length (l acc : list string) :
  List.length (replace_duplicates acc l) = (List.length acc + List.length l)%nat.
Proof.
  destruct (replace_duplicates_prefix l acc) as (r & E & L).
  rewrite E, length_app. lia.
Qed.

Lemma replace_duplicates_nth (l acc : list string) (i : nat) (x : string) :
  x <> ""%string -> nth_error l i = Some x ->
  nth_error (replace_duplicates acc l) (List.length acc + i)
  = Some (if in_dec string_dec x (acc ++ firstn i l) then ""%string else x).
Proof.
  intros Hx. revert acc i.
  induction l as [|y l IH]; intros acc i Hi; [destruct i; discriminate|].
  destruct i as [|i]; simpl in Hi.
  - injection Hi as ->. simpl. rewrite app_nil_r, Nat.add_0_r.
    destruct (in_dec string_dec x acc) as [HI|HI].
    + destruct (replace_duplicates_prefix l (acc ++ [""%string])) as (r & E & _).
      rewrite E, <- app_assoc. rewrite nth_error_app2 by lia.
      now rewrite Nat.sub_diag.
    + destruct (replace_duplicates_prefix l (acc ++ [x])) as (r & E & _).
      rewrite E, <- app_assoc. rewrite nth_error_app2 by lia.
      now rewrite Nat.sub_diag.
  - cbn [replace_duplicates firstn].
    replace (List.length acc + S i)%nat
      with (List.length (acc ++ [y]) + i)%nat
      by (rewrite length_app; simpl; lia).
    destruct (in_dec string_dec y acc) as [HI|HI].
    + replace (List.length (acc ++ [y]))
        with (List.length (acc ++ [""%string]))
        by (rewrite !length_app; reflexivity).
      rewrite (IH _ _ Hi).
      destruct (in_dec string_dec x ((acc ++ [""%string]) ++ firstn i l))
        as [H1|H1];
        destruct (in_dec string_dec x (acc ++ y :: firstn i l)) as [H2|H2];
        try reflexivity; exfalso.
      * apply H2. rewrite <- app_assoc in H1.
        apply in_app_or in H1. apply in_or_app.
        destruct H1 as [H1|[H1|H1]]; [now left|congruence|right; now right].
      * apply H1. rewrite <- app_assoc.
        apply in_app_or in H2. apply in_or_app.
        destruct H2 as [H2|[H2|H2]];
          [now left|subst; now left|right; now right].
    + rewrite (IH _ _ Hi). rewrite <- app_assoc. reflexivity.
Qed.

(** *** [_if_new_bbox_add_track] *)

Lemma last_bboxes_nil (s : OpenCVTracker) :
  last_bboxes s = [] <-> tracking_dict s = [].
Proof.
  unfold last_bboxes. destruct (tracking_dict s); simpl; split; congruence.
Qed.

Lemma matching_items_bound (s : OpenCVTracker) (bs : list Box) (k : Box) (v : nat) :
  In (k, Some v) (matching_items (last_bboxes s) bs) ->
  (v < List.length (tracking_dict s))%nat.
Proof.
  unfold matching_items. intros H. apply in_map_iff in H.
  destruct H as (b & E & _). injection E as -> E.
  apply matched_bound in E. unfold last_bboxes in E.
  now rewrite length_map in E.
Qed.

(** With a registry that is not empty the association raises nothing: it
    tags the items of [matching_dict] and appends the new tracks. *)
Lemma add_track_spec (bs : list Box) (frame : Frame) (s : OpenCVTracker) :
  wf s -> tracking_dict s <> [] ->
  let items := matching_items (last_bboxes s) bs in
  let s' := {| first_frame_or_not := first_frame_or_not s;
               next_object_id :=
                 (next_object_id s + Z.of_nat (unmatched items))%Z;
               tracking_dict :=
                 tracking_dict s ++ new_tracks frame (next_object_id s) items |} in
  _if_new_bbox_add_track bs frame s
  = (Ok (replace_duplicates
           [] (map str (assigned_ids (registry_ids s) (next_object_id s) items))),
     s')
  /\ wf s'.
Proof.
  intros Hwf Hd. cbv zeta.
  unfold _if_new_bbox_add_track. unfold bind at 1, get at 1. cbn beta iota.
  unfold bind at 1, lift at 1.
  fold (last_bboxes s).
  change (@nil (Box * option nat))
    with (map (fun b => (b, matched (last_bboxes s) b)) []).
  rewrite match_boxes_spec;
    [|now rewrite last_bboxes_nil|constructor].
  fold (matching_items (last_bboxes s) bs).
  destruct s as [f n d]. simpl tracking_dict in *. simpl next_object_id.
  simpl first_frame_or_not.
  assert (Hwf0 : wf {| first_frame_or_not := f; next_object_id := n;
                       tracking_dict := d ++ [] |})
    by now rewrite app_nil_r.
  destruct (tag_matches_spec frame d
              (matching_items
                 (last_bboxes {| first_frame_or_not := f; next_object_id := n;
                                 tracking_dict := d |}) bs)
              (matching_items_bound _ bs) [] f n [] Hwf0) as [E Hwf'].
  rewrite app_nil_r in E. simpl app in E, Hwf'.
  unfold bind. rewrite E. auto.
Qed.

(** With an empty registry and at least one box, [max] is called on an empty
    sequence. *)
Lemma add_track_empty_registry (bs : list Box) (frame : Frame) (s : OpenCVTracker) :
  tracking_dict s = [] -> bs <> [] ->
  _if_new_bbox_add_track bs frame s = (Raise ValueError, s).
Proof.
  intros Hd Hb. unfold _if_new_bbox_add_track. run_monad.
  rewrite Hd. simpl. now rewrite match_boxes_empty_registry.
Qed.

Lemma add_track_no_boxes (frame : Frame) (s : OpenCVTracker) :
  _if_new_bbox_add_track [] frame s = (Ok [], s).
Proof. reflexivity. Qed.

(** The association leaves the object well formed, whatever it returns. *)
Lemma add_track_wf (bs : list Box) (frame : Frame) (s : OpenCVTracker) :
  wf s -> wf (snd (_if_new_bbox_add_track bs frame s)).
Proof.
  intros Hwf.
  destruct (tracking_dict s) as [|x d] eqn:Ed.
  - destruct bs as [|b bs].
    + now rewrite add_track_no_boxes.
    + rewrite add_track_empty_registry; [assumption|assumption|congruence].
  - destruct (add_track_spec bs frame s Hwf) as [E Hwf'];
      [congruence|]. now rewrite E.
Qed.

(** *** The first frame *)

Lemma init_loop_spec (frame : Frame) (bs : list Box) (s : OpenCVTracker) :
  wf s ->
  let items := map (fun b : Box => (b, @None nat)) bs in
  let s' := {| first_frame_or_not := first_frame_or_not s;
               next_object_id := (next_object_id s + Z.of_nat (List.length bs))%Z;
               tracking_dict :=
                 tracking_dict s ++ new_tracks frame (next_object_id s) items |} in
  for_each (fun bbox => _initialize_tracker bbox frame ;;; ret tt) bs s
  = (Ok tt, s') /\ wf s'.
Proof.
  revert s. induction bs as [|b bs IH]; intros s Hwf; cbv zeta.
  - simpl. rewrite app_nil_r, Z.add_0_r. destruct s; auto.
  - replace (next_object_id s + Z.of_nat (List.length (b :: bs)))%Z
      with (next_object_id s + 1 + Z.of_nat (List.length bs))%Z
      by (cbn [List.length]; lia).
    cbn [for_each map new_tracks]. unfold bind at 1 2.
    destruct (initialize_tracker_spec b frame s Hwf) as [E Hwf1].
    rewrite E. clear E. cbn beta iota. unfold ret at 1.
    destruct (IH _ Hwf1) as [E Hwf'].
    rewrite E. simpl in *. rewrite <- app_assoc in *. simpl app in *. auto.
Qed.

(** *** [track_frame] and [run] *)

(** A later frame: the association, then the update pass on the state the
    association leaves; an exception of the association ends the call. *)
Lemma track_frame_running (frame : Frame) (bs : list Box) (s : OpenCVTracker) :
  wf s -> running s ->
  track_frame frame bs s
  = match _if_new_bbox_add_track bs frame s with
    | (Ok tags, s1) => (Ok tags, after_update frame s1)
    | (Raise e, s1) => (Raise e, s1)
    end.
Proof.
  intros Hwf Hr. unfold track_frame. unfold bind at 1, get at 1.
  cbn beta iota. rewrite Hr. unfold bind at 1.
  pose proof (add_track_wf bs frame s Hwf) as Hwf1.
  destruct (_if_new_bbox_add_track bs frame s) as [[tags|e] s1];
    [|reflexivity].
  unfold bind. simpl in Hwf1. rewrite (update_all_spec frame s1 Hwf1).
  reflexivity.
Qed.

(** The first frame: one track per box, the tags are the ids of the
    registry, then the update pass. *)
Lemma track_frame_first (frame : Frame) (bs : list Box) (s : OpenCVTracker) :
  wf s -> first_frame_or_not s = true ->
  let d1 := tracking_dict s ++
            new_tracks frame (next_object_id s)
                       (map (fun b : Box => (b, @None nat)) bs) in
  track_frame frame bs s
  = (Ok (map str (dict_keys d1)),
     {| first_frame_or_not := false;
        next_object_id := (next_object_id s + Z.of_nat (List.length bs))%Z;
        tracking_dict := survivors frame d1 |}).
Proof.
  intros Hwf Hf. cbv zeta.
  destruct (init_loop_spec frame bs s Hwf) as [E Hwf1].
  unfold track_frame.
  set (body := fun bbox : Box => _initialize_tracker bbox frame ;;; ret tt) in *.
  unfold bind, get. rewrite Hf, E. unfold put, ret.
  match goal with
  | |- context [update_all frame ?s1] =>
      assert (Hwf2 : wf s1) by exact Hwf1;
      rewrite (update_all_spec frame s1 Hwf2)
  end.
  reflexivity.
Qed.

Lemma run_track_frame (inputs : Inputs) (s : OpenCVTracker) :
  run inputs s = track_frame (img inputs) (formatted inputs) s.
Proof.
  unfold run, formatted, np_copy. now destruct (frame_shape (img inputs)).
Qed.

(** Every call of [run] leaves the object well formed. *)
Lemma track_frame_wf (frame : Frame) (bs : list Box) (s : OpenCVTracker) :
  wf s -> wf (snd (track_frame frame bs s)).
Proof.
  intros Hwf. destruct (first_frame_or_not s) eqn:Ef.
  - rewrite (track_frame_first frame bs s Hwf Ef). simpl.
    destruct (init_loop_spec frame bs s Hwf) as [_ Hwf1].
    apply (survivors_wf frame) in Hwf1. simpl in Hwf1.
    destruct Hwf1 as (H1 & H2 & H3). repeat split; assumption.
  - rewrite (track_frame_running frame bs s Hwf Ef).
    pose proof (add_track_wf bs frame s Hwf) as Hwf1.
    destruct (_if_new_bbox_add_track bs frame s) as [[tags|e] s1];
      simpl in *; [|assumption].
    now apply survivors_wf.
Qed.

Lemma run_wf (inputs : Inputs) (s : OpenCVTracker) :
  wf s -> wf (snd (run inputs s)).
Proof.
  rewrite run_track_frame. apply track_frame_wf.
Qed.

Lemma init_wf : wf __init__.
Proof.
  unfold wf, __init__, registry_ids. simpl. repeat constructor. lia.
Qed.
End Methods.

(** ** The items of the frame: membership, ids and new tracks *)

Section Items.
Context {W : Cv2World}.

Lemma first_occurrences_in (bs seen : list Box) (b : Box) :
  In b (first_occurrences seen bs) <-> In b seen \/ In b bs.
Proof.
  revert seen. induction bs as [|x bs IH]; intros seen; simpl.
  - tauto.
  - destruct (in_dec Box_eq_dec x seen) as [HI|HI]; rewrite IH.
    + split; [tauto|]. intros [H|[<-|H]]; auto.
    + rewrite in_app_iff. simpl. tauto.
Qed.

Lemma matching_items_in (prev bs : list Box) (b : Box) (v : option nat) :
  In (b, v) (matching_items prev bs) <-> In b bs /\ v = matched prev b.
Proof.
  unfold matching_items. rewrite in_map_iff. split.
  - intros (x & E & H). injection E as -> <-.
    apply first_occurrences_in in H. destruct H as [[]|H]. auto.
  - intros [H ->]. exists b. split; [reflexivity|].
    apply first_occurrences_in. now right.
Qed.

Lemma matching_items_distinct (prev bs : list Box) :
  NoDup bs -> matching_items prev bs = map (fun b => (b, matched prev b)) bs.
Proof.
  intros H. unfold matching_items.
  now rewrite (first_occurrences_distinct bs []).
Qed.

Lemma new_tracks_in (frame : Frame) (items : list (Box * option nat))
      (n id : Z) (t : Tracker) (k : Box) :
  In (id, (t, k)) (new_tracks frame n items) ->
  In (k, None) items /\ (n < id)%Z /\ t = cv2_init (cv2_create MOSSE) frame k.
Proof.
  revert n. induction items as [|[k' [v|]] items IH]; intros n; simpl.
  - tauto.
  - intros H. apply IH in H. tauto.
  - intros [E|H].
    + injection E as <- <- <-. repeat split; [now left|lia].
    + apply IH in H. destruct H as (H1 & H2 & H3).
      repeat split; [now right|lia|assumption].
Qed.

Lemma new_tracks_complete (frame : Frame) (items : list (Box * option nat))
      (n : Z) (k : Box) :
  In (k, None) items ->
  exists id, (n < id)%Z /\
             In (id, (cv2_init (cv2_create MOSSE) frame k, k))
                (new_tracks frame n items).
Proof.
  revert n. induction items as [|[k' [v|]] items IH]; intros n; simpl.
  - tauto.
  - intros [E|H]; [discriminate|]. now apply IH.
  - intros [E|H].
    + injection E as ->. exists (n + 1)%Z. split; [lia|now left].
    + destruct (IH (n + 1)%Z H) as (id & L & HI).
      exists id. split; [lia|now right].
Qed.

Lemma new_tracks_matched_only (frame : Frame) (items : list (Box * option nat))
      (n : Z) :
  unmatched items = O -> new_tracks frame n items = [].
Proof.
  unfold unmatched. revert n.
  induction items as [|[k [v|]] items IH]; intros n; simpl; auto.
  discriminate.
Qed.

Lemma assigned_ids_length (ks : list Z) (items : list (Box * option nat)) (n : Z) :
  List.length (assigned_ids ks n items) = List.length items.
Proof.
  revert n. induction items as [|[k [v|]] items IH]; intros n; simpl; auto.
Qed.

Lemma assigned_ids_matched (ks : list Z) (items : list (Box * option nat))
      (n : Z) (j : nat) (k : Box) (v : nat) :
  nth_error items j = Some (k, Some v) ->
  nth_error (assigned_ids ks n items) j = Some (nth v ks 0%Z).
Proof.
  revert n j. induction items as [|[k' [v'|]] items IH]; intros n j H;
    destruct j as [|j]; simpl in *; try discriminate; auto.
  now injection H as _ ->.
Qed.

(** The id read for an unmatched item is above the counter and differs from
    the ids read for the items before it. *)
Lemma assigned_ids_unmatched (ks : list Z) (items : list (Box * option nat))
      (n : Z) (j : nat) (k : Box) :
  Forall (fun x => (x <= n)%Z) ks -> (0 <= n)%Z ->
  nth_error items j = Some (k, None) ->
  exists id, nth_error (assigned_ids ks n items) j = Some id /\
             (n < id)%Z /\
             ~ In id (firstn j (assigned_ids ks n items)).
Proof.
  revert n j. induction items as [|[k' [v'|]] items IH]; intros n j HF Hn H;
    destruct j as [|j]; simpl in *; try discriminate.
  - destruct (IH n j HF Hn H) as (id & E & L & N).
    exists id. repeat split; auto. intros [E'|HI]; [|tauto].
    assert (B : (nth v' ks 0 <= n)%Z).
    { destruct (nth_in_or_default v' ks 0%Z) as [HI | ->]; [|assumption].
      rewrite Forall_forall in HF. now apply HF. }
    lia.
  - exists (n + 1)%Z. repeat split; [lia|tauto].
  - assert (HF' : Forall (fun x => (x <= n + 1)%Z) ks)
      by (eapply Forall_impl; [|exact HF]; simpl; intros; lia).
    destruct (IH (n + 1)%Z j HF' ltac:(lia) H) as (id & E & L & N).
    exists id. repeat split; [assumption|lia|].
    intros [E'|HI]; [lia|tauto].
Qed.

(** The ids read for the items before a position. *)
Lemma assigned_ids_before (ks : list Z) (items : list (Box * option nat))
      (n : Z) (j : nat) (id : Z) :
  In id (firstn j (assigned_ids ks n items)) ->
  (exists i k v, (i < j)%nat /\ nth_error items i = Some (k, Some v) /\
                 id = nth v ks 0%Z)
  \/ (n < id)%Z.
Proof.
  revert n j. induction items as [|[k' [v'|]] items IH]; intros n j H;
    destruct j as [|j]; simpl in *; try tauto.
  - destruct H as [<-|H].
    + left. exists O, k', v'. repeat split. lia.
    + destruct (IH n j H) as [(i & k & v & L & E & Ei)|L]; [|now right].
      left. exists (S i), k, v. repeat split; auto. lia.
  - destruct H as [<-|H]; [right; lia|].
    destruct (IH (n + 1)%Z j H) as [(i & k & v & L & E & Ei)|L];
      [|right; lia].
    left. exists (S i), k, v. repeat split; auto. lia.
Qed.

Lemma wf_ids_bounded (s : OpenCVTracker) :
  wf s -> Forall (fun x => (x <= next_object_id s)%Z) (registry_ids s).
Proof.
  intros (_ & HF & _). eapply Forall_impl; [|exact HF]. simpl. intros; lia.
Qed.

(** The tag of a position of [track_id] after the replacement of
    duplicates. *)
Lemma tag_of_position (ids : list Z) (j : nat) (id : Z) :
  nth_error ids j = Some id ->
  nth_error (replace_duplicates [] (map str ids)) j
  = Some (if in_dec Z.eq_dec id (firstn j ids) then ""%string else str id).
Proof.
  intros H.
  assert (H' : nth_error (map str ids) j = Some (str id))
    by now rewrite nth_error_map, H.
  pose proof (replace_duplicates_nth (map str ids) [] j (str id)
                                     (str_nonempty id) H') as E.
  simpl in E. rewrite E. clear E.
  rewrite firstn_map.
  destruct (in_dec string_dec (str id) (map str (firstn j ids))) as [HI|HI];
    destruct (in_dec Z.eq_dec id (firstn j ids)) as [HZ|HZ];
    try reflexivity; exfalso.
  - apply in_map_iff in HI. destruct HI as (x & Ex & Hx).
    apply str_inj in Ex. subst x. contradiction.
  - apply HI. now apply in_map.
Qed.
End Items.

(** ** The properties of the specification *)

Section SpecProperties.
Context {W : Cv2World}.

Lemma survivors_keys_iff (frame : Frame) (d : dict Z Track) (id : Z) :
  In id (dict_keys (survivors frame d)) <->
  exists t b, In (id, (t, b)) d /\ fst (snd (cv2_update t frame)) = true.
Proof.
  induction d as [|[id' [t b]] d IH]; simpl.
  - split; [tauto|]. intros (t & b & [] & _).
  - destruct (cv2_update t frame) as [t' [ok b']] eqn:E. split.
    + intros H. assert (H' : (ok = true /\ id' = id) \/
                              In id (dict_keys (survivors frame d))).
      { destruct ok; simpl in H; [destruct H; auto|auto]. }
      destruct H' as [[-> ->]|H'].
      * exists t, b. split; [now left|now rewrite E].
      * apply IH in H'. destruct H' as (t1 & b1 & HI & Hs).
        exists t1, b1. auto.
    + intros (t1 & b1 & [HI|HI] & Hs).
      * injection HI as -> -> ->. rewrite E in Hs. simpl in Hs. subst ok.
        now left.
      * assert (H' : In id (dict_keys (survivors frame d)))
          by (apply IH; eauto).
        destruct ok; simpl; auto.
Qed.

Lemma survivors_all_succeed (frame : Frame) (d : dict Z Track) :
  (forall id t b, In (id, (t, b)) d -> fst (snd (cv2_update t frame)) = true) ->
  dict_keys (survivors frame d) = dict_keys d.
Proof.
  induction d as [|[id' [t b]] d IH]; simpl; intros H; [reflexivity|].
  pose proof (H id' t b (or_introl eq_refl)) as Hs.
  destruct (cv2_update t frame) as [t' [ok b']]. simpl in Hs. subst ok.
  simpl. f_equal. apply IH. intros. eapply H. right. eassumption.
Qed.

(** C2, as amended.  For every state of the tracker between two calls and
    every frame whose detection list is empty, [run] returns an empty list
    and creates no track ([next_object_id] is unchanged and every id of the
    registry after the call was in it before).  The update pass still runs:
    the registry keeps exactly the tracks whose tracker reports success on
    the frame, so its ids are unchanged when no tracker fails. *)
Theorem C2_empty_detections (inputs : Inputs) (s : OpenCVTracker) :
  inv s -> bboxes inputs = [] ->
  run inputs s = (Ok [], {| first_frame_or_not := false;
                            next_object_id := next_object_id s;
                            tracking_dict :=
                              survivors (img inputs) (tracking_dict s) |})
  /\ (forall id, In id (registry_ids (snd (run inputs s))) <->
                 exists t b, In (id, (t, b)) (tracking_dict s) /\
                             fst (snd (cv2_update t (img inputs))) = true)
  /\ ((forall id t b, In (id, (t, b)) (tracking_dict s) ->
                      fst (snd (cv2_update t (img inputs))) = true) ->
      registry_ids (snd (run inputs s)) = registry_ids s).
Proof.
  intros [Hwf Hi] Hb.
  assert (E : run inputs s
              = (Ok [], {| first_frame_or_not := false;
                           next_object_id := next_object_id s;
                           tracking_dict :=
                             survivors (img inputs) (tracking_dict s) |})).
  { rewrite run_track_frame. unfold formatted. rewrite Hb. simpl format_boxes.
    destruct (first_frame_or_not s) eqn:Ef.
    - rewrite (track_frame_first _ _ _ Hwf Ef). simpl.
      rewrite (Hi eq_refl). simpl. reflexivity.
    - rewrite (track_frame_running _ _ _ Hwf Ef).
      rewrite add_track_no_boxes. unfold after_update.
      now rewrite Ef, Z.add_0_r || rewrite Ef. }
  rewrite E. unfold registry_ids. simpl.
  split; [reflexivity|]. split.
  - intros id. apply survivors_keys_iff.
  - apply survivors_all_succeed.
Qed.

(** C4: the code at the failing input.  In the RUNNING state with an
    empty registry, [run] on a frame with at least one detection raises
    [ValueError] (Python's [max] is applied to the empty sequence of IoU
    scores) and creates no track. *)
Theorem C4_empty_registry_raises (inputs : Inputs) (s : OpenCVTracker) :
  running s -> tracking_dict s = [] -> bboxes inputs <> [] ->
  run inputs s = (Raise ValueError, s).
Proof.
  intros Hr Hd Hb. rewrite run_track_frame.
  unfold track_frame. unfold bind at 1, get at 1. cbn beta iota.
  rewrite Hr. unfold bind.
  rewrite add_track_empty_registry; [reflexivity|assumption|].
  unfold formatted, format_boxes. destruct (bboxes inputs); simpl; congruence.
Qed.

(** C1: the code at the failing input.  In the RUNNING state, a frame with
    two detections of identical coordinates gets a list with a single tag:
    the two boxes are one key of [matching_dict]. *)
Theorem C1_identical_boxes_one_tag
        (inputs : Inputs) (s : OpenCVTracker) (nb : NBox) :
  wf s -> running s -> tracking_dict s <> [] -> bboxes inputs = [nb; nb] ->
  exists tag s', run inputs s = (Ok [tag], s').
Proof.
  intros Hwf Hr Hd Hb. rewrite run_track_frame.
  rewrite (track_frame_running _ _ _ Hwf Hr).
  destruct (add_track_spec (formatted inputs) (img inputs) s Hwf Hd) as [E _].
  rewrite E. clear E. unfold matching_items, formatted. rewrite Hb.
  simpl format_boxes.
  cbn [first_occurrences app].
  destruct (in_dec Box_eq_dec _ []) as [[]|_].
  cbn [first_occurrences app].
  destruct (in_dec Box_eq_dec _ _) as [_|N]; [|exfalso; apply N; now left].
  cbn [first_occurrences map].
  destruct (matched _ _); cbn [assigned_ids map replace_duplicates];
    (destruct (in_dec string_dec _ []) as [[]|_]); simpl; eauto.
Qed.

(** C9, as amended.  After every operation (initialization, association,
    update and eviction, a whole call of [run]) the ids of the registry
    increase strictly along the iteration order and none exceeds
    [next_object_id]; immediately after [_initialize_tracker] the last key
    is the id just assigned and equals [next_object_id]. *)
Theorem C9_registry_ids_increase (s : OpenCVTracker) :
  wf s ->
  (forall bbox frame,
      let s' := snd (_initialize_tracker bbox frame s) in
      wf s' /\
      next_object_id s' = (next_object_id s + 1)%Z /\
      py_last (registry_ids s') = Ok (next_object_id s')) /\
  (forall bs frame, wf (snd (_if_new_bbox_add_track bs frame s))) /\
  (forall frame, wf (snd (update_all frame s))) /\
  (forall inputs, wf (snd (run inputs s))).
Proof.
  intros Hwf. split; [|split; [|split]].
  - intros bbox frame. cbv zeta.
    destruct (initialize_tracker_spec bbox frame s Hwf) as [E H].
    rewrite E. cbn [snd next_object_id]. split; [exact H|].
    split; [reflexivity|].
    unfold registry_ids, dict_keys. cbn [tracking_dict].
    rewrite map_app. apply py_last_snoc.
  - intros bs frame. now apply add_track_wf.
  - intros frame. rewrite (update_all_spec frame s Hwf).
    now apply survivors_wf.
  - intros inputs. now apply run_wf.
Qed.
(** The decision of the matching loop for one box, with the maximum and the
    index that [argmax] returns. *)
Lemma matched_cases (prev : list Box) (b : Box) :
  prev <> [] ->
  exists m i,
    py_max (iou b prev) = Ok m /\
    nth_error (iou b prev) i = Some m /\
    (forall j y, nth_error (iou b prev) j = Some y -> y <= m) /\
    (forall j y, (j < i)%nat -> nth_error (iou b prev) j = Some y -> y < m) /\
    matched prev b = if Qle_bool iou_thresh (round1 m) then Some i else None.
Proof.
  intros Hp.
  assert (Hi : iou b prev <> [])
    by (unfold iou; destruct prev; simpl; congruence).
  destruct (max_argmax _ Hi) as (m & i & Hm & Ha & Hn & Hle & Hlt).
  exists m, i. repeat split; auto.
  unfold matched, highest_iou_index. rewrite Hm, Ha.
  now destruct (Qle_bool iou_thresh (round1 m)).
Qed.

Lemma matching_items_single (prev : list Box) (b : Box) :
  matching_items prev [b] = [(b, matched prev b)].
Proof.
  rewrite matching_items_distinct; [reflexivity|].
  repeat constructor. simpl. tauto.
Qed.

Lemma replace_duplicates_single (x : string) : replace_duplicates [] [x] = [x].
Proof.
  simpl. now destruct (in_dec string_dec x []) as [[]|_].
Qed.

Lemma registry_entry (s : OpenCVTracker) (v : nat) :
  (v < List.length (last_bboxes s))%nat ->
  exists id t bb,
    nth_error (tracking_dict s) v = Some (id, (t, bb)) /\
    nth_error (registry_ids s) v = Some id /\
    nth_error (last_bboxes s) v = Some bb.
Proof.
  unfold last_bboxes, registry_ids, dict_keys. rewrite length_map. intros L.
  destruct (nth_error (tracking_dict s) v) as [[id [t bb]]|] eqn:E.
  - exists id, t, bb. rewrite !nth_error_map, E. auto.
  - apply nth_error_None in E. lia.
Qed.

(** C3.  In the RUNNING state with a registry that is not empty, for every
    box [b] of the frame: the association succeeds, and [b] is assigned to
    an existing track exactly when the maximum IoU of [b] against the
    stored boxes, rounded to one decimal place, is at least the threshold
    0.1.  When it is, the track is one whose stored box attains the
    maximum, and no track is created for [b]; when it is not, a new track
    with a fresh id is created for [b].  For a frame with the single
    detection [b] the tag is the id of that track. *)
Theorem C3_threshold_decides
        (bs : list Box) (frame : Frame) (s : OpenCVTracker) (b : Box) :
  wf s -> tracking_dict s <> [] -> In b bs ->
  exists m tags s',
    py_max (iou b (last_bboxes s)) = Ok m /\
    _if_new_bbox_add_track bs frame s = (Ok tags, s') /\
    (iou_thresh <= round1 m ->
     exists v id t bb,
       matched (last_bboxes s) b = Some v /\
       nth_error (tracking_dict s) v = Some (id, (t, bb)) /\
       iou1 b bb = m /\
       (forall id' t', In (id', (t', b)) (tracking_dict s') ->
                       In (id', (t', b)) (tracking_dict s)) /\
       (bs = [b] -> tags = [str id] /\ s' = s)) /\
    (~ iou_thresh <= round1 m ->
     matched (last_bboxes s) b = None /\
     (exists id', (next_object_id s < id')%Z /\
                  ~ In id' (registry_ids s) /\
                  In (id', (cv2_init (cv2_create MOSSE) frame b, b))
                     (tracking_dict s')) /\
     (bs = [b] ->
      tags = [str (next_object_id s + 1)] /\
      tracking_dict s'
      = tracking_dict s ++
        [((next_object_id s + 1)%Z,
          (cv2_init (cv2_create MOSSE) frame b, b))])).
Proof.
  intros Hwf Hd Hb.
  assert (Hp : last_bboxes s <> []) by now rewrite last_bboxes_nil.
  destruct (matched_cases (last_bboxes s) b Hp)
    as (m & i & Hm & Hn & Hle & Hlt & Hmatch).
  destruct (add_track_spec bs frame s Hwf Hd) as [E Hwf'].
  eexists m, _, _. split; [exact Hm|]. split; [exact E|].
  cbn [tracking_dict]. split.
  - intros Hq. apply Qle_bool_iff in Hq. rewrite Hq in Hmatch.
    pose proof (matched_bound _ _ _ Hmatch) as Hi.
    destruct (registry_entry s i Hi) as (id & t & bb & Ed & Eid & Ebb).
    exists i, id, t, bb. repeat split; auto.
    + unfold iou in Hn. rewrite nth_error_map, Ebb in Hn.
      now injection Hn.
    + intros id' t' HI. apply in_app_or in HI.
      destruct HI as [HI|HI]; [assumption|].
      apply new_tracks_in in HI. destruct HI as (HI & _).
      apply matching_items_in in HI. destruct HI as [_ HI]. congruence.
    + subst bs. rewrite matching_items_single, Hmatch.
      cbn [assigned_ids map].
      rewrite (nth_error_nth _ _ 0%Z Eid). apply replace_duplicates_single.
    + subst bs. rewrite matching_items_single, Hmatch.
      cbn [new_tracks]. unfold unmatched. simpl.
      rewrite app_nil_r, Z.add_0_r. now destruct s.
  - intros Hq.
    assert (Hq' : Qle_bool iou_thresh (round1 m) = false).
    { destruct (Qle_bool iou_thresh (round1 m)) eqn:Eq; [|reflexivity].
      apply Qle_bool_iff in Eq. contradiction. }
    rewrite Hq' in Hmatch. split; [assumption|]. split.
    + assert (HI : In (b, None) (matching_items (last_bboxes s) bs))
        by (apply matching_items_in; auto).
      destruct (new_tracks_complete frame _ (next_object_id s) b HI)
        as (id' & L & HI').
      exists id'. repeat split; [assumption| |apply in_or_app; now right].
      intros Hid. pose proof (wf_ids_bounded s Hwf) as HF.
      rewrite Forall_forall in HF. specialize (HF _ Hid). lia.
    + intros ->. rewrite matching_items_single, Hmatch.
      cbn [assigned_ids new_tracks map].
      split; [apply replace_duplicates_single|reflexivity].
Qed.

(** C6.  In the RUNNING state, when the maximum IoU of a detection passes
    the rounded threshold, the detection is assigned to the first track, in
    the iteration order of the registry, whose stored box attains the
    maximum: no other track attains a larger IoU, and every track that
    attains the maximum comes at the same or a later position and has the
    same or a larger id. *)
Theorem C6_first_maximum_wins
        (frame : Frame) (s : OpenCVTracker) (b : Box) (m : Q) :
  wf s -> tracking_dict s <> [] ->
  py_max (iou b (last_bboxes s)) = Ok m -> iou_thresh <= round1 m ->
  exists v id,
    matched (last_bboxes s) b = Some v /\
    nth_error (registry_ids s) v = Some id /\
    nth_error (iou b (last_bboxes s)) v = Some m /\
    fst (_if_new_bbox_add_track [b] frame s) = Ok [str id] /\
    (forall j id' y,
        nth_error (registry_ids s) j = Some id' ->
        nth_error (iou b (last_bboxes s)) j = Some y ->
        y <= m /\ (y == m -> (v <= j)%nat /\ (id <= id')%Z)).
Proof.
  intros Hwf Hd Hm Hq.
  assert (Hp : last_bboxes s <> []) by now rewrite last_bboxes_nil.
  destruct (matched_cases (last_bboxes s) b Hp)
    as (m' & i & Hm' & Hn & Hle & Hlt & Hmatch).
  rewrite Hm in Hm'. injection Hm' as <-.
  apply Qle_bool_iff in Hq. rewrite Hq in Hmatch.
  pose proof (matched_bound _ _ _ Hmatch) as Hi.
  destruct (registry_entry s i Hi) as (id & t & bb & Ed & Eid & Ebb).
  exists i, id. repeat split; auto.
  - destruct (add_track_spec [b] frame s Hwf Hd) as [E _].
    rewrite E. cbn [fst]. rewrite matching_items_single, Hmatch.
    cbn [assigned_ids map]. rewrite (nth_error_nth _ _ 0%Z Eid).
    now rewrite replace_duplicates_single.
  - eapply Hle; eauto.
  - destruct (Nat.lt_ge_cases j i) as [L|G]; [|assumption].
    specialize (Hlt _ _ L H0). lra.
  - destruct (Nat.lt_ge_cases j i) as [L|G].
    + specialize (Hlt _ _ L H0). lra.
    + destruct (Nat.eq_dec i j) as [<-|N]; [rewrite Eid in H; injection H; lia|].
      destruct Hwf as (Hs & _).
      pose proof (sorted_nth_lt _ i j id id' Hs ltac:(lia) Eid H). lia.
Qed.

(** The tags of a frame of distinct boxes, position by position. *)
Lemma distinct_boxes_tags
        (frame : Frame) (bs : list Box) (s : OpenCVTracker) :
  wf s -> running s -> tracking_dict s <> [] -> NoDup bs ->
  exists tags s',
    track_frame frame bs s = (Ok tags, s') /\
    List.length tags = List.length bs /\
    (forall j b v id,
        nth_error bs j = Some b ->
        matched (last_bboxes s) b = Some v ->
        nth_error (registry_ids s) v = Some id ->
        ((exists i b', (i < j)%nat /\ nth_error bs i = Some b' /\
                       matched (last_bboxes s) b' = Some v) ->
         nth_error tags j = Some ""%string) /\
        ((forall i b', (i < j)%nat -> nth_error bs i = Some b' ->
                       matched (last_bboxes s) b' <> Some v) ->
         nth_error tags j = Some (str id))) /\
    (forall v id,
        nth_error (registry_ids s) v = Some id ->
        Forall (fun b => matched (last_bboxes s) b = Some v) bs ->
        tags = match bs with
               | [] => []
               | _ :: bs' => str id :: repeat ""%string (List.length bs')
               end).
Proof.
  intros Hwf Hr Hd HN.
  rewrite (track_frame_running frame bs s Hwf Hr).
  destruct (add_track_spec bs frame s Hwf Hd) as [E _]. rewrite E. clear E.
  rewrite (matching_items_distinct _ _ HN).
  set (prev := last_bboxes s).
  set (items := map (fun b => (b, matched prev b)) bs).
  set (ids := assigned_ids (registry_ids s) (next_object_id s) items).
  assert (Hlen : List.length (replace_duplicates [] (map str ids))
                 = List.length bs).
  { rewrite replace_duplicates_length, length_map. unfold ids.
    rewrite assigned_ids_length. unfold items. now rewrite length_map. }
  assert (Hitem : forall j b, nth_error bs j = Some b ->
                              nth_error items j = Some (b, matched prev b)).
  { intros j b H. unfold items. now rewrite nth_error_map, H. }
  assert (Htag : forall j b v id,
             nth_error bs j = Some b -> matched prev b = Some v ->
             nth_error (registry_ids s) v = Some id ->
             ((exists i b', (i < j)%nat /\ nth_error bs i = Some b' /\
                            matched prev b' = Some v) ->
              nth_error (replace_duplicates [] (map str ids)) j
              = Some ""%string) /\
             ((forall i b', (i < j)%nat -> nth_error bs i = Some b' ->
                            matched prev b' <> Some v) ->
              nth_error (replace_duplicates [] (map str ids)) j
              = Some (str id))).
  { intros j b v id Hj Hv Hid.
    assert (Eid : nth_error ids j = Some id).
    { unfold ids. rewrite (assigned_ids_matched _ _ _ j b v).
      - now rewrite (nth_error_nth _ _ 0%Z Hid).
      - rewrite (Hitem _ _ Hj). now rewrite Hv. }
    rewrite (tag_of_position ids j id Eid).
    destruct (in_dec Z.eq_dec id (firstn j ids)) as [HI|HI]; split;
      try reflexivity.
    - intros Hno. exfalso.
      apply assigned_ids_before in HI.
      destruct HI as [(i & k & v' & L & Ei & Eq)|L].
      + assert (Hbi : exists b', nth_error bs i = Some b').
        { destruct (nth_error bs i) eqn:Eb; [eauto|].
          unfold items in Ei. rewrite nth_error_map, Eb in Ei. discriminate. }
        destruct Hbi as (b' & Eb).
        rewrite (Hitem _ _ Eb) in Ei. injection Ei as <- Ev'.
        apply (Hno i b' L Eb). rewrite Ev'. f_equal.
        pose proof (matched_bound _ _ _ Ev') as Bv'.
        unfold prev, last_bboxes in Bv'. rewrite length_map in Bv'.
        assert (Eid' : nth_error (registry_ids s) v' = Some id).
        { rewrite Eq. apply nth_error_nth'.
          unfold registry_ids, dict_keys. now rewrite length_map. }
        destruct Hwf as (Hs & _). apply sorted_NoDup in Hs.
        apply (proj1 (NoDup_nth_error _) Hs v' v).
        * apply nth_error_Some. congruence.
        * congruence.
      + pose proof (wf_ids_bounded s Hwf) as HF.
        rewrite Forall_forall in HF.
        apply nth_error_In in Hid. specialize (HF _ Hid). lia.
    - intros (i & b' & L & Eb & Ev'). exfalso. apply HI.
      assert (Ei : nth_error ids i = Some id).
      { unfold ids. rewrite (assigned_ids_matched _ _ _ i b' v).
        - now rewrite (nth_error_nth _ _ 0%Z Hid).
        - rewrite (Hitem _ _ Eb). now rewrite Ev'. }
      rewrite <- (firstn_skipn j ids) in Ei.
      assert (Lj : (j <= List.length ids)%nat).
      { apply Nat.lt_le_incl. apply nth_error_Some. congruence. }
      rewrite nth_error_app1 in Ei
        by (rewrite length_firstn; lia).
      eapply nth_error_In; eauto. }
  eexists _, _. split; [reflexivity|]. split; [exact Hlen|].
  split; [exact Htag|].
  intros v id Hid Hall. rewrite Forall_forall in Hall.
  apply nth_ext with (d := ""%string) (d' := ""%string).
  - rewrite Hlen. destruct bs; simpl; [reflexivity|].
    now rewrite repeat_length.
  - rewrite Hlen. intros j Lj.
    destruct (nth_error bs j) as [b|] eqn:Eb;
      [|apply nth_error_None in Eb; lia].
    pose proof (Hall b (nth_error_In _ _ Eb)) as Hv.
    destruct (Htag j b v id Eb Hv Hid) as [Hblank Hfirst].
    apply nth_error_nth.
    destruct bs as [|b0 bs']; [destruct j; discriminate|].
    destruct j as [|j].
    + rewrite Hfirst; [reflexivity|]. intros i b' L. lia.
    + rewrite Hblank.
      * simpl. f_equal. symmetry. apply nth_repeat.
      * exists O, b0. repeat split; [lia|]. apply Hall. now left.
Qed.
(** C5.  In the RUNNING state, for a frame of distinct boxes, [run] returns
    one tag per box; a box that resolves to an existing track gets the
    track's id as its tag when no earlier box of the frame resolves to the
    same track, and the empty string otherwise.  So when all the boxes of
    the frame resolve to the same track the output is the id followed by
    empty strings only: [[id; ""]] for two boxes. *)
Theorem C5_duplicates_are_blank (inputs : Inputs) (s : OpenCVTracker) :
  wf s -> running s -> tracking_dict s <> [] -> NoDup (formatted inputs) ->
  exists tags s',
    run inputs s = (Ok tags, s') /\
    List.length tags = List.length (bboxes inputs) /\
    (forall j b v id,
        nth_error (formatted inputs) j = Some b ->
        matched (last_bboxes s) b = Some v ->
        nth_error (registry_ids s) v = Some id ->
        ((exists i b', (i < j)%nat /\ nth_error (formatted inputs) i = Some b' /\
                       matched (last_bboxes s) b' = Some v) ->
         nth_error tags j = Some ""%string) /\
        ((forall i b', (i < j)%nat -> nth_error (formatted inputs) i = Some b' ->
                       matched (last_bboxes s) b' <> Some v) ->
         nth_error tags j = Some (str id))) /\
    (forall v id,
        nth_error (registry_ids s) v = Some id ->
        Forall (fun b => matched (last_bboxes s) b = Some v) (formatted inputs) ->
        tags = match formatted inputs with
               | [] => []
               | _ :: bs' => str id :: repeat ""%string (List.length bs')
               end).
Proof.
  intros Hwf Hr Hd HN. rewrite run_track_frame.
  destruct (distinct_boxes_tags (img inputs) (formatted inputs) s Hwf Hr Hd HN)
    as (tags & s' & E & Hlen & Htag & Hall).
  exists tags, s'. split; [exact E|]. split; [|split; assumption].
  rewrite Hlen. unfold formatted, format_boxes. apply length_map.
Qed.

(** *** Association before update *)

Lemma association_tags_spec (bs : list Box) (frame : Frame) (s : OpenCVTracker) :
  wf s ->
  fst (_if_new_bbox_add_track bs frame s)
  = association_tags (registry_ids s) (last_bboxes s) (next_object_id s) bs.
Proof.
  intros Hwf. unfold association_tags.
  destruct (tracking_dict s) as [|x d] eqn:Ed.
  - assert (Ep : last_bboxes s = []) by now apply last_bboxes_nil.
    rewrite Ep. destruct bs as [|b bs].
    + reflexivity.
    + rewrite add_track_empty_registry; [reflexivity|assumption|congruence].
  - destruct (add_track_spec bs frame s Hwf) as [E _]; [congruence|].
    rewrite E. cbn [fst].
    destruct (last_bboxes s) eqn:Ep; [|reflexivity].
    apply last_bboxes_nil in Ep. congruence.
Qed.

Lemma run_tags_running (inputs : Inputs) (s : OpenCVTracker) :
  wf s -> running s ->
  fst (run inputs s)
  = association_tags (registry_ids s) (last_bboxes s) (next_object_id s)
                     (formatted inputs).
Proof.
  intros Hwf Hr. rewrite run_track_frame.
  rewrite (track_frame_running _ _ _ Hwf Hr).
  rewrite <- (association_tags_spec (formatted inputs) (img inputs) s Hwf).
  now destruct (_if_new_bbox_add_track (formatted inputs) (img inputs) s)
    as [[tags|e] s1].
Qed.

(** C7.  In the RUNNING state, [run] returns the tags that the association
    computes on the object as it is when the call starts, and then runs the
    update pass on the object that the association leaves: the registry
    after the call is made of the tracks whose tracker succeeds on the
    frame.  The tags depend on the stored boxes only: two objects with the
    same ids, stored boxes and counter give the same tags for the same
    boxes, whatever their trackers would predict and whatever the pixels of
    the frames. *)
Theorem C7_association_before_update (inputs : Inputs) (s : OpenCVTracker) :
  wf s -> running s ->
  (forall tags s1,
      _if_new_bbox_add_track (formatted inputs) (img inputs) s = (Ok tags, s1) ->
      run inputs s = (Ok tags, after_update (img inputs) s1)) /\
  (forall inputs2 s2,
      wf s2 -> running s2 ->
      registry_ids s2 = registry_ids s ->
      last_bboxes s2 = last_bboxes s ->
      next_object_id s2 = next_object_id s ->
      formatted inputs2 = formatted inputs ->
      fst (run inputs2 s2) = fst (run inputs s)).
Proof.
  intros Hwf Hr. split.
  - intros tags s1 E. rewrite run_track_frame.
    rewrite (track_frame_running _ _ _ Hwf Hr). now rewrite E.
  - intros inputs2 s2 Hwf2 Hr2 Eids Eprev En Ebs.
    rewrite (run_tags_running inputs s Hwf Hr).
    rewrite (run_tags_running inputs2 s2 Hwf2 Hr2).
    now rewrite Eids, Eprev, En, Ebs.
Qed.

(** *** Ids *)






(** *** The caller's arrays *)

Lemma nth_error_snoc {A : Type} (l : list A) (a : A) :
  nth_error (l ++ [a]) (List.length l) = Some a.
Proof.
  rewrite nth_error_app2 by lia. now rewrite Nat.sub_diag.
Qed.

Lemma set_nth_snoc {A : Type} (l : list A) (a b : A) :
  set_nth (l ++ [a]) (List.length l) b = l ++ [b].
Proof.
  induction l as [|x l IH]; simpl; [reflexivity|]. now rewrite IH.
Qed.

Lemma preserved_app (st extra : Store) : preserved st (st ++ extra).
Proof.
  intros r a H. rewrite nth_error_app1; [assumption|].
  apply nth_error_Some. congruence.
Qed.

(** What [run] on references does: it allocates the copy of the image, the
    copy of the boxes and, when [format_boxes] returns a new array, that
    array; it writes into these only, and it runs the tracker on their
    contents. *)
Lemma run_store_spec (mode : FormatMode) (inputs : InputRefs)
      (st : Store) (s : OpenCVTracker) :
  exists r extra s',
    run_store mode inputs (st, s) = (r, (st ++ extra, s')) /\
    (forall pixels rows,
        nth_error st (img_ref inputs) = Some (ImageArray pixels) ->
        nth_error st (bboxes_ref inputs) = Some (BoxArray rows) ->
        r = fst (run {| img := pixels; bboxes := rows |} s) /\
        s' = snd (run {| img := pixels; bboxes := rows |} s)).
Proof.
  unfold run_store, np_copy_ref, format_boxes_ref, deref, alloc, assign,
    on_tracker, bind, ret, raise.
  cbn [fst snd].
  destruct (nth_error st (img_ref inputs)) as [a|] eqn:Ei.
  2:{ exists (Raise TypeError), [], s. rewrite app_nil_r.
      split; [reflexivity|]. intros; discriminate. }
  cbn beta iota delta [fst snd]. rewrite nth_error_snoc.
  destruct a as [pixels|rows0|rows0];
    try (eexists _, _, _; split; [reflexivity|intros; discriminate]).
  assert (Hrun : forall rows,
             run {| img := pixels; bboxes := rows |} s
             = track_frame pixels
                           (format_boxes rows (fst (frame_shape pixels))
                                         (snd (frame_shape pixels))) s).
  { intros rows. now rewrite run_track_frame. }
  destruct (frame_shape pixels) as [h w]. cbn [fst snd] in Hrun.
  cbn beta iota delta [fst snd].
  destruct (nth_error (st ++ [ImageArray pixels]) (bboxes_ref inputs))
    as [a2|] eqn:Eb.
  2:{ eexists _, _, _. split; [reflexivity|].
      intros p r _ H. eapply preserved_app in H. rewrite Eb in H.
      discriminate. }
  cbn beta iota delta [fst snd]. rewrite nth_error_snoc.
  destruct a2 as [pixels2|rows|rows];
    try (cbn [fst snd]; eexists _, _, _;
         split; [rewrite <- app_assoc; reflexivity|];
         intros p r _ H; eapply preserved_app in H; rewrite Eb in H;
         discriminate).
  destruct mode; cbn beta iota delta [fst snd].
  - rewrite set_nth_snoc. cbn beta iota delta [fst snd].
    rewrite nth_error_snoc. cbn beta iota delta [fst snd].
    destruct (track_frame pixels (format_boxes rows h w) s) as [r s'] eqn:Et.
    eexists _, _, _. split; [rewrite <- ?app_assoc; reflexivity|].
    intros p r' H1 H2. injection H1 as <-.
    eapply preserved_app in H2. rewrite Eb in H2. injection H2 as <-.
    rewrite Hrun, Et. auto.
  - rewrite nth_error_snoc. cbn beta iota delta [fst snd].
    destruct (track_frame pixels (format_boxes rows h w) s) as [r s'] eqn:Et.
    eexists _, _, _. split; [rewrite <- ?app_assoc; reflexivity|].
    intros p r' H1 H2. injection H1 as <-.
    eapply preserved_app in H2. rewrite Eb in H2. injection H2 as <-.
    rewrite Hrun, Et. auto.
Qed.

(** C10.  [run] does not mutate its inputs: every array that exists when
    the call starts, the caller's image and box array among them, holds
    the same contents when the call ends, whether [format_boxes] converts
    its argument in place or returns a new array; and the call does to the
    tracker what [run] does on the contents of the two arrays. *)
Theorem C10_inputs_not_mutated (mode : FormatMode) (inputs : InputRefs)
        (st : Store) (s : OpenCVTracker) :
  preserved st (fst (snd (run_store mode inputs (st, s)))) /\
  (forall pixels rows,
      nth_error st (img_ref inputs) = Some (ImageArray pixels) ->
      nth_error st (bboxes_ref inputs) = Some (BoxArray rows) ->
      nth_error (fst (snd (run_store mode inputs (st, s)))) (img_ref inputs)
      = Some (ImageArray pixels) /\
      nth_error (fst (snd (run_store mode inputs (st, s)))) (bboxes_ref inputs)
      = Some (BoxArray rows) /\
      fst (run_store mode inputs (st, s))
      = fst (run {| img := pixels; bboxes := rows |} s) /\
      snd (snd (run_store mode inputs (st, s)))
      = snd (run {| img := pixels; bboxes := rows |} s)).
Proof.
  destruct (run_store_spec mode inputs st s) as (r & extra & s' & E & Hrun).
  rewrite E. cbn [fst snd].
  split; [apply preserved_app|].
  intros pixels rows Hi Hb.
  destruct (Hrun pixels rows Hi Hb) as [E1 E2].
  repeat split; auto; now apply preserved_app.
Qed.
End SpecProperties.

(** ** The properties on the concrete world *)

Import Demo.

(** The tracker on a few frames. *)

Example first_frame_one_detection :
  fst (run (frame_of calm [boxA]) __init__) = Ok ["1"%string] /\
  registry_ids s_one = [1%Z] /\
  last_bboxes s_one = [px boxA] /\
  next_object_id s_one = 1%Z /\
  first_frame_or_not s_one = false.
Proof. repeat split; vm_compute; reflexivity. Qed.

Example second_frame_match_and_new :
  fst (run (frame_of calm [boxA'; (1 # 2, 0, 1, 2 # 5)]) s_two)
  = Ok ["1"%string; "3"%string].
Proof. vm_compute. reflexivity. Qed.

Example three_boxes_on_one_track :
  fst (run (frame_of calm [boxA; boxA'; boxA'']) s_one)
  = Ok ["1"%string; ""%string; ""%string].
Proof. vm_compute. reflexivity. Qed.

Example identical_boxes_in_a_later_frame :
  fst (run (frame_of calm [boxA; boxA]) s_one) = Ok ["1"%string].
Proof. vm_compute. reflexivity. Qed.

Example evicted_id_is_not_given_again :
  fst (run_all (evict_first ++ [frame_of calm [boxA]]) __init__)
  = Ok [["1"%string; "2"%string]; []; ["3"%string]].
Proof. vm_compute. reflexivity. Qed.

Example rounding_at_the_threshold :
  round1 (1 # 20) == 0 /\ round1 (3 # 50) == 1 # 10 /\
  Qle_bool iou_thresh (round1 (1 # 20)) = false /\
  Qle_bool iou_thresh (round1 (3 # 50)) = true.
Proof. repeat split; reflexivity. Qed.

Lemma s_one_inv : inv s_one.
Proof.
  split; [split; [|split]|].
  - vm_compute registry_ids. repeat constructor.
  - vm_compute registry_ids. vm_compute next_object_id.
    constructor; [lia|constructor].
  - vm_compute next_object_id. lia.
  - vm_compute first_frame_or_not. discriminate.
Qed.

Lemma C2_witness :
  run (frame_of calm []) s_one
  = (Ok [], {| first_frame_or_not := false;
               next_object_id := next_object_id s_one;
               tracking_dict := survivors calm (tracking_dict s_one) |}).
Proof.
  apply (C2_empty_detections (frame_of calm []) s_one s_one_inv eq_refl).
Defined.

(** C2, as stated, fails: on a frame without detections on which the
    tracker of the only track fails, the registry loses its track. *)
Lemma C2_counterexample :
  ~ (fst (run (frame_of (losing [px boxA]) []) s_one) = Ok [] /\
     registry_ids (snd (run (frame_of (losing [px boxA]) []) s_one))
     = registry_ids s_one).
Proof.
  intros [_ H]. vm_compute in H. discriminate.
Qed.

Lemma C4_witness :
  run (frame_of calm [boxA]) s_none = (Raise ValueError, s_none).
Proof.
  apply (C4_empty_registry_raises (frame_of calm [boxA]) s_none).
  - reflexivity.
  - reflexivity.
  - discriminate.
Defined.

Lemma C1_witness :
  exists tag s', run (frame_of calm [boxA; boxA]) s_one = (Ok [tag], s').
Proof.
  apply (C1_identical_boxes_one_tag (frame_of calm [boxA; boxA]) s_one boxA).
  - apply s_one_inv.
  - reflexivity.
  - vm_compute. discriminate.
  - reflexivity.
Defined.

Lemma C9_witness : wf (snd (run (frame_of calm [boxA']) s_one)).
Proof.
  apply (C9_registry_ids_increase s_one (proj1 s_one_inv)).
Defined.

(** C9, as stated, fails: once the tracker of the most recent track has
    failed, the last key of the registry is not [next_object_id]. *)
Lemma C9_counterexample :
  ~ (py_last (registry_ids s_lost_second)
     = Ok (next_object_id s_lost_second)).
Proof.
  vm_compute. discriminate.
Qed.

Lemma s_one_registry : tracking_dict s_one <> [].
Proof. vm_compute. discriminate. Qed.

Lemma C3_witness :
  exists m tags s',
    py_max (iou (px boxA') (last_bboxes s_one)) = Ok m /\
    _if_new_bbox_add_track [px boxA'] calm s_one = (Ok tags, s').
Proof.
  destruct (C3_threshold_decides (W := demo) [px boxA'] calm s_one (px boxA')
              (proj1 s_one_inv) s_one_registry (or_introl eq_refl))
    as (m & tags & s' & Hm & E & _).
  exists m, tags, s'. split; assumption.
Defined.

Lemma C5_witness :
  exists tags s',
    run (frame_of calm [boxA'; boxA'']) s_one = (Ok tags, s') /\
    List.length tags = 2%nat.
Proof.
  assert (HN : NoDup (formatted (frame_of calm [boxA'; boxA'']))).
  { vm_compute. constructor.
    - simpl. intros [H|[]]. discriminate H.
    - constructor; [simpl; tauto|constructor]. }
  destruct (C5_duplicates_are_blank (W := demo) (frame_of calm [boxA'; boxA'']) s_one
              (proj1 s_one_inv) eq_refl s_one_registry HN)
    as (tags & s' & E & Hlen & _).
  exists tags, s'. split; assumption.
Defined.

Lemma s_twins_wf : wf s_twins.
Proof.
  split; [|split].
  - vm_compute registry_ids. repeat constructor.
  - vm_compute registry_ids. vm_compute next_object_id.
    repeat (constructor; [lia|]). constructor.
  - vm_compute next_object_id. lia.
Qed.

Lemma C6_witness :
  exists v id,
    matched (last_bboxes s_twins) (px boxA) = Some v /\
    nth_error (registry_ids s_twins) v = Some id /\
    fst (_if_new_bbox_add_track [px boxA] calm s_twins) = Ok [str id].
Proof.
  assert (Hd : tracking_dict s_twins <> []) by (vm_compute; discriminate).
  assert (Hm : py_max (iou (px boxA) (last_bboxes s_twins)) = Ok 1)
    by (vm_compute; reflexivity).
  assert (Hq : iou_thresh <= round1 1)
    by (apply Qle_bool_iff; vm_compute; reflexivity).
  destruct (C6_first_maximum_wins (W := demo) calm s_twins (px boxA) 1 s_twins_wf Hd Hm Hq)
    as (v & id & Hv & Hid & _ & Htag & _).
  exists v, id. repeat split; assumption.
Defined.

Lemma C7_witness :
  fst (run (frame_of (losing [px boxA]) [boxA']) s_one)
  = fst (run (frame_of calm [boxA']) s_one).
Proof.
  apply (proj2 (C7_association_before_update (W := demo) (frame_of calm [boxA']) s_one
                  (proj1 s_one_inv) eq_refl)
               (frame_of (losing [px boxA]) [boxA']) s_one
               (proj1 s_one_inv) eq_refl eq_refl eq_refl eq_refl eq_refl).
Defined.



Lemma C10_witness :
  nth_error (fst (snd (run_store InPlace caller_inputs (caller_store, __init__)))) 0
  = Some (ImageArray calm) /\
  nth_error (fst (snd (run_store InPlace caller_inputs (caller_store, __init__)))) 1
  = Some (BoxArray [boxA]).
Proof.
  destruct (proj2 (C10_inputs_not_mutated (W := demo) InPlace caller_inputs caller_store __init__)
                  calm [boxA] eq_refl eq_refl) as (H1 & H2 & _).
  split; assumption.
Defined.

(** * Further properties of the tracker *)

Section DictLookupFacts.
Variables K V : Type.
Variable K_eq_dec : forall a b : K, {a = b} + {a <> b}.

Lemma dict_get_update_same (d : dict K V) (k : K) (v : V) :
  dict_get K_eq_dec (dict_update K_eq_dec d k v) k = Ok v.
Proof.
  induction d as [|[k' v'] d IH]; simpl.
  - destruct (K_eq_dec k k); congruence.
  - destruct (K_eq_dec k' k) as [E|N]; simpl.
    + destruct (K_eq_dec k' k); congruence.
    + destruct (K_eq_dec k' k); [contradiction|assumption].
Qed.

Lemma dict_get_update_other (d : dict K V) (k k0 : K) (v : V) :
  k0 <> k ->
  dict_get K_eq_dec (dict_update K_eq_dec d k v) k0 = dict_get K_eq_dec d k0.
Proof.
  intros N. induction d as [|[k' v'] d IH]; simpl.
  - destruct (K_eq_dec k k0); congruence.
  - destruct (K_eq_dec k' k) as [E|N']; simpl.
    + subst k'. destruct (K_eq_dec k k0); congruence.
    + destruct (K_eq_dec k' k0); [reflexivity|assumption].
Qed.
End DictLookupFacts.

Section MoreProperties.
Context {W : Cv2World}.

(** X1.  [_create_tracker_by_name] knows exactly the eight names of
    [trackerTypes]: the name at a position gives the constructor of the
    branch at that position, and the result is [None] exactly for the
    names that are not in the list (the comparison is exact, so a name in
    another case is not found). *)
Theorem X1_create_tracker_by_name (name : string) :
  (forall i k,
      nth_error trackerTypes i = Some name ->
      nth_error trackerKinds i = Some k ->
      _create_tracker_by_name name = Some (cv2_create k)) /\
  (_create_tracker_by_name name = None <-> ~ In name trackerTypes).
Proof.
  split.
  - intros i k Hi Hk.
    do 8 (destruct i as [|i];
          [simpl in Hi, Hk; injection Hi as <-; injection Hk as <-;
           reflexivity|]).
    destruct i; discriminate.
  - split.
    + intros H HI. simpl in HI.
      repeat (destruct HI as [<-|HI]; [discriminate H|]). exact HI.
    + intros HN. unfold _create_tracker_by_name. simpl nth.
      repeat match goal with
             | |- context [String.eqb name ?x] =>
                 destruct (String.eqb_spec name x) as [->|?];
                 [exfalso; apply HN; simpl; tauto|]
             end.
      reflexivity.
Qed.

(** X2.  [_initialize_tracker] never raises, whatever the object: it adds
    one to [next_object_id], leaves [first_frame_or_not] alone, and stores
    under the new id the MOSSE tracker initialized on the frame and the
    box, together with the box.  Looking the new id up gives this entry,
    and the lookup of every other id is as before. *)
Theorem X2_initialize_tracker_inserts
        (bbox : Box) (frame : Frame) (s : OpenCVTracker) :
  exists s',
    _initialize_tracker bbox frame s = (Ok (tracking_dict s'), s') /\
    next_object_id s' = (next_object_id s + 1)%Z /\
    first_frame_or_not s' = first_frame_or_not s /\
    dict_get Z.eq_dec (tracking_dict s') (next_object_id s')
    = Ok (cv2_init (cv2_create MOSSE) frame bbox, bbox) /\
    (forall id, id <> next_object_id s' ->
                dict_get Z.eq_dec (tracking_dict s') id
                = dict_get Z.eq_dec (tracking_dict s) id).
Proof.
  unfold _initialize_tracker. rewrite create_mosse. run_monad.
  exists {| first_frame_or_not := first_frame_or_not s;
            next_object_id := (next_object_id s + 1)%Z;
            tracking_dict :=
              dict_update Z.eq_dec (tracking_dict s) (next_object_id s + 1)%Z
                          (cv2_init (cv2_create MOSSE) frame bbox, bbox) |}.
  split; [reflexivity|]. simpl.
  repeat split.
  - apply dict_get_update_same.
  - intros id N. now apply dict_get_update_other.
Qed.

Lemma first_frame_ids (frame : Frame) (bs : list Box) (n : Z) :
  dict_keys (new_tracks frame n (map (fun b : Box => (b, @None nat)) bs))
  = map (fun i => (n + Z.of_nat i)%Z) (seq 1 (List.length bs)).
Proof.
  revert n. induction bs as [|b bs IH]; intros n; [reflexivity|].
  cbn [map new_tracks dict_keys fst List.length seq].
  f_equal; try lia.
  change (map fst (new_tracks frame (n + 1)
                     (map (fun b : Box => (b, @None nat)) bs)))
    with (dict_keys (new_tracks frame (n + 1)
                       (map (fun b : Box => (b, @None nat)) bs))).
  rewrite <- (seq_shift (List.length bs) 1), map_map, IH.
  apply map_ext. intros i. lia.
Qed.

(** X3.  On the first call, for every image and every list of detections,
    [run] returns the tags ["1"], ["2"], ... up to the number of
    detections, in order: one tag per detection, also for boxes with the
    same coordinates; the counter is then the number of detections and the
    object has left its first-frame state. *)
Theorem X3_first_frame_tags (inputs : Inputs) :
  fst (run inputs __init__)
  = Ok (map (fun i => str (Z.of_nat i)) (seq 1 (List.length (bboxes inputs)))) /\
  next_object_id (snd (run inputs __init__))
  = Z.of_nat (List.length (bboxes inputs)) /\
  first_frame_or_not (snd (run inputs __init__)) = false.
Proof.
  rewrite run_track_frame.
  rewrite (track_frame_first _ _ _ init_wf eq_refl).
  cbn [fst snd next_object_id first_frame_or_not __init__ tracking_dict app].
  unfold formatted, format_boxes. rewrite length_map.
  repeat split.
  rewrite first_frame_ids, length_map, map_map. reflexivity.
Qed.

Lemma survivors_in_iff (frame : Frame) (d : dict Z Track)
      (id : Z) (t : Tracker) (b : Box) :
  In (id, (t, b)) (survivors frame d) <->
  exists t0 b0, In (id, (t0, b0)) d /\ cv2_update t0 frame = (t, (true, b)).
Proof.
  induction d as [|[id' [t' b']] d IH]; simpl.
  - split; [tauto|]. intros (t0 & b0 & [] & _).
  - destruct (cv2_update t' frame) as [t1 [ok b1]] eqn:E. split.
    + intros H.
      assert (H' : (ok = true /\ (id', (t1, b1)) = (id, (t, b))) \/
                   In (id, (t, b)) (survivors frame d)).
      { apply in_app_or in H. destruct H as [H|H]; [|now right].
        destruct ok; simpl in H; [|tauto].
        destruct H as [H|[]]. now left. }
      destruct H' as [[-> E']|H'].
      * injection E' as -> -> ->. exists t', b'. split; [now left|assumption].
      * apply IH in H'. destruct H' as (t0 & b0 & HI & Hu).
        exists t0, b0. auto.
    + intros (t0 & b0 & [HI|HI] & Hu); apply in_or_app.
      * injection HI as -> -> ->. rewrite E in Hu.
        injection Hu as -> -> ->. left. now left.
      * right. apply IH. eauto.
Qed.

(** X4.  The update pass on a well-formed object raises nothing (no
    [KeyError] from the deletions in the loop over the copy), leaves the
    counter and the first-frame flag alone, and leaves in the registry
    exactly the tracks whose tracker reports success on the frame, each
    with the tracker as [update] leaves it and the box that [update]
    returns; the ids that remain keep their order. *)
Theorem X4_update_pass (frame : Frame) (s : OpenCVTracker) :
  wf s ->
  exists s',
    update_all frame s = (Ok tt, s') /\
    next_object_id s' = next_object_id s /\
    first_frame_or_not s' = first_frame_or_not s /\
    StronglySorted Z.lt (registry_ids s') /\
    (forall id t b,
        In (id, (t, b)) (tracking_dict s') <->
        exists t0 b0, In (id, (t0, b0)) (tracking_dict s) /\
                      cv2_update t0 frame = (t, (true, b))).
Proof.
  intros Hwf. rewrite (update_all_spec frame s Hwf).
  eexists. split; [reflexivity|]. cbn [next_object_id first_frame_or_not].
  repeat split.
  - apply (survivors_wf frame s Hwf).
  - apply survivors_in_iff.
  - apply survivors_in_iff.
Qed.

(** X10.  After a call of [run] on a well-formed object the object is in
    the RUNNING state, whether the call was the first one (with or without
    detections) or a later one, and whether it returned or raised: the
    first-frame branch is taken at most once. *)
Theorem X10_running_after_run (inputs : Inputs) (s : OpenCVTracker) :
  wf s -> running (snd (run inputs s)).
Proof.
  intros Hwf. rewrite run_track_frame. unfold running.
  destruct (first_frame_or_not s) eqn:Ef.
  - now rewrite (track_frame_first _ _ _ Hwf Ef).
  - rewrite (track_frame_running _ _ _ Hwf Ef).
    destruct (tracking_dict s) as [|x d] eqn:Ed.
    + destruct (formatted inputs) as [|b bs].
      * rewrite add_track_no_boxes. exact Ef.
      * rewrite add_track_empty_registry by (assumption || congruence).
        exact Ef.
    + destruct (add_track_spec (formatted inputs) (img inputs) s Hwf)
        as [E _]; [congruence|].
      rewrite E. exact Ef.
Qed.

Lemma formatted_nil (inputs : Inputs) :
  formatted inputs = [] <-> bboxes inputs = [].
Proof.
  unfold formatted, format_boxes.
  destruct (bboxes inputs); simpl; split; congruence.
Qed.

(** X5.  On a well-formed object [run] raises in one situation only: the
    object is RUNNING, its registry is empty and the frame has at least one
    detection; the exception is then [ValueError].  In every other case the
    call returns its list of tags: the index lookups in the registry, the
    deletions of the update pass and the tracker construction raise
    nothing. *)
Theorem X5_run_raises_only_on_empty_registry
        (inputs : Inputs) (s : OpenCVTracker) (e : exn) :
  wf s ->
  (fst (run inputs s) = Raise e <->
   e = ValueError /\ running s /\ tracking_dict s = [] /\
   bboxes inputs <> []).
Proof.
  intros Hwf. rewrite run_track_frame. unfold running.
  destruct (first_frame_or_not s) eqn:Ef.
  - rewrite (track_frame_first _ _ _ Hwf Ef). cbn [fst].
    split; [discriminate|]. intros (_ & H & _). discriminate.
  - rewrite (track_frame_running _ _ _ Hwf Ef).
    destruct (tracking_dict s) as [|x d] eqn:Ed.
    + destruct (formatted inputs) as [|b bs] eqn:Eb.
      * rewrite add_track_no_boxes. cbn [fst].
        split; [discriminate|]. intros (_ & _ & _ & H).
        apply formatted_nil in Eb. contradiction.
      * rewrite add_track_empty_registry by (assumption || congruence).
        cbn [fst]. split.
        -- intros H. injection H as <-. repeat split.
           intros H. apply formatted_nil in H. congruence.
        -- intros (-> & _). reflexivity.
    + destruct (add_track_spec (formatted inputs) (img inputs) s Hwf)
        as [E _]; [congruence|].
      rewrite E. cbn [fst]. split; [discriminate|].
      intros (_ & _ & H & _). discriminate H.
Qed.

(** *** Labelled tags *)

Lemma labelled_app (a b : list string) :
  labelled (a ++ b) = labelled a ++ labelled b.
Proof. apply filter_app. Qed.

Lemma labelled_in (x : string) (l : list string) :
  In x (labelled l) -> In x l.
Proof.
  unfold labelled. intros H. now apply filter_In in H.
Qed.

Lemma labelled_str (ks : list Z) : labelled (map str ks) = map str ks.
Proof.
  induction ks as [|k ks IH]; simpl; [reflexivity|].
  destruct (String.eqb_spec (str k) ""%string) as [E|_].
  - now apply str_nonempty in E.
  - simpl. now rewrite IH.
Qed.

Lemma NoDup_map_str (ks : list Z) : NoDup ks -> NoDup (map str ks).
Proof.
  induction 1 as [|k ks Hk Hn IH]; simpl; constructor; [|assumption].
  intros HI. apply in_map_iff in HI. destruct HI as (k' & E & HI).
  apply str_inj in E. subst k'. contradiction.
Qed.

Lemma replace_duplicates_labelled (l acc : list string) :
  NoDup (labelled acc) -> NoDup (labelled (replace_duplicates acc l)).
Proof.
  revert acc. induction l as [|x l IH]; intros acc HN; simpl; [assumption|].
  destruct (in_dec string_dec x acc) as [HI|HI]; apply IH;
    rewrite labelled_app.
  - simpl. now rewrite app_nil_r.
  - simpl. destruct (String.eqb_spec x ""%string) as [E|E]; simpl.
    + now rewrite app_nil_r.
    + apply NoDup_app; [assumption|repeat constructor; simpl; tauto|].
      intros y Hy [<-|[]]. apply HI. now apply labelled_in.
Qed.

(** X6.  In the list of tags that [run] returns on a well-formed object,
    the tags that are not the empty string are pairwise different: no two
    detections of a frame carry the same id. *)
Theorem X6_labels_are_distinct
        (inputs : Inputs) (s : OpenCVTracker) (tags : list string) :
  wf s -> fst (run inputs s) = Ok tags -> NoDup (labelled tags).
Proof.
  intros Hwf. destruct (first_frame_or_not s) eqn:Ef.
  - rewrite run_track_frame, (track_frame_first _ _ _ Hwf Ef). cbn [fst].
    intros H. injection H as <-. rewrite labelled_str.
    apply NoDup_map_str.
    destruct (init_loop_spec (img inputs) (formatted inputs) s Hwf)
      as [_ (Hs & _)].
    apply sorted_NoDup. exact Hs.
  - rewrite (run_tags_running inputs s Hwf Ef). unfold association_tags.
    destruct (last_bboxes s); destruct (formatted inputs);
      try discriminate; intros H; injection H as <-;
      first [ apply replace_duplicates_labelled; constructor
            | simpl; constructor ].
Qed.

(** *** One tag per distinct box *)

Lemma first_occurrences_length (bs seen : list Box) :
  (List.length (first_occurrences seen bs)
   <= List.length seen + List.length bs)%nat /\
  (List.length (first_occurrences seen bs)
   = (List.length seen + List.length bs)%nat <->
   NoDup bs /\ (forall b, In b bs -> ~ In b seen)).
Proof.
  revert seen. induction bs as [|b bs IH]; intros seen; simpl.
  - split; [lia|]. split; [|lia]. intros _. split; [constructor|tauto].
  - destruct (in_dec Box_eq_dec b seen) as [HI|HI].
    + destruct (IH seen) as [Hle _]. split; [lia|]. split; [lia|].
      intros [_ H]. exfalso. apply (H b); auto.
    + destruct (IH (seen ++ [b])) as [Hle Hiff].
      rewrite length_app in Hle, Hiff. simpl in Hle, Hiff.
      split; [lia|].
      replace (List.length seen + S (List.length bs))%nat
        with (List.length seen + 1 + List.length bs)%nat by lia.
      rewrite Hiff. split.
      * intros [HN Hd]. split.
        -- constructor; [|assumption]. intros Hb.
           apply (Hd b Hb). apply in_or_app. right. now left.
        -- intros x [<-|Hx]; [assumption|].
           intros Hs. apply (Hd x Hx). apply in_or_app. now left.
      * intros [HN Hd]. inversion HN as [|? ? Hb HN']; subst. split;
          [assumption|].
        intros x Hx Hs. apply in_app_or in Hs.
        destruct Hs as [Hs|[<-|[]]]; [|contradiction].
        apply (Hd x); auto.
Qed.

(** X7.  In the RUNNING state with a registry that is not empty, [run]
    returns at most one tag per detection, and exactly one tag per
    detection if and only if the boxes of the frame are pairwise
    different: boxes of equal coordinates share one tag, so the list is
    then shorter than the list of detections. *)
Theorem X7_one_tag_per_distinct_box (inputs : Inputs) (s : OpenCVTracker) :
  wf s -> running s -> tracking_dict s <> [] ->
  exists tags,
    fst (run inputs s) = Ok tags /\
    (List.length tags <= List.length (bboxes inputs))%nat /\
    (List.length tags = List.length (bboxes inputs) <->
     NoDup (formatted inputs)).
Proof.
  intros Hwf Hr Hd.
  rewrite (run_tags_running inputs s Hwf Hr). unfold association_tags.
  assert (Hp : last_bboxes s <> []) by now rewrite last_bboxes_nil.
  destruct (last_bboxes s) as [|p prev] eqn:Ep; [congruence|].
  eexists. split; [reflexivity|].
  rewrite replace_duplicates_length, length_map, assigned_ids_length.
  unfold matching_items. rewrite length_map. cbn [List.length Nat.add].
  assert (El : List.length (formatted inputs) = List.length (bboxes inputs))
    by (unfold formatted, format_boxes; apply length_map).
  destruct (first_occurrences_length (formatted inputs) []) as [Hle Hiff].
  cbn [List.length Nat.add] in Hle, Hiff. rewrite El in Hle, Hiff.
  split; [exact Hle|]. rewrite Hiff. split; [tauto|].
  intros H. split; [assumption|]. intros b _ [].
Qed.

(** *** New ids follow the order of the detections *)

Lemma association_tags_nonempty (ks : list Z) (prev : list Box) (n : Z)
      (bs : list Box) :
  prev <> [] ->
  association_tags ks prev n bs
  = Ok (replace_duplicates
          [] (map str (assigned_ids ks n (matching_items prev bs)))).
Proof.
  unfold association_tags. destruct prev; [congruence|reflexivity].
Qed.

Lemma unmatched_cons (kv : Box * option nat) (items : list (Box * option nat)) :
  unmatched (kv :: items)
  = match snd kv with
    | None => S (unmatched items)
    | Some _ => unmatched items
    end.
Proof.
  unfold unmatched. simpl. now destruct (snd kv).
Qed.

Lemma assigned_ids_unmatched_value
      (ks : list Z) (items : list (Box * option nat))
      (n : Z) (j : nat) (k : Box) :
  nth_error items j = Some (k, None) ->
  nth_error (assigned_ids ks n items) j
  = Some (n + 1 + Z.of_nat (unmatched (firstn j items)))%Z.
Proof.
  revert n j. induction items as [|[k' [v'|]] items IH]; intros n j H;
    destruct j as [|j]; cbn [nth_error assigned_ids firstn] in *;
    try discriminate.
  - rewrite unmatched_cons. cbn [snd]. now apply IH.
  - f_equal. unfold unmatched. simpl. lia.
  - rewrite unmatched_cons. cbn [snd]. rewrite (IH (n + 1)%Z j H).
    f_equal. lia.
Qed.

Lemma unmatched_firstn_lt (items : list (Box * option nat))
      (i j : nat) (k : Box) :
  (i < j)%nat -> nth_error items i = Some (k, None) ->
  (unmatched (firstn i items) < unmatched (firstn j items))%nat.
Proof.
  revert i j. induction items as [|[k' v'] items IH]; intros i j L H.
  - destruct i; discriminate.
  - destruct j as [|j]; [lia|]. destruct i as [|i]; cbn [firstn].
    + simpl in H. injection H as -> ->.
      rewrite unmatched_cons. cbn [snd]. unfold unmatched at 1. simpl. lia.
    + simpl in H. rewrite !unmatched_cons.
      pose proof (IH i j ltac:(lia) H). destruct (snd (k', v')); lia.
Qed.

(** X8.  In the RUNNING state, among the pairwise different boxes of a
    frame, the boxes that match no track are given their new ids in the
    order of the detections: of two unmatched boxes, the earlier one is
    tagged with an id above the counter and the later one with a larger
    id, and neither tag is blanked. *)
Theorem X8_new_ids_follow_input_order
        (inputs : Inputs) (s : OpenCVTracker)
        (i j : nat) (bi bj : Box) :
  wf s -> running s -> tracking_dict s <> [] -> NoDup (formatted inputs) ->
  (i < j)%nat ->
  nth_error (formatted inputs) i = Some bi ->
  nth_error (formatted inputs) j = Some bj ->
  matched (last_bboxes s) bi = None ->
  matched (last_bboxes s) bj = None ->
  exists tags a b,
    fst (run inputs s) = Ok tags /\
    nth_error tags i = Some (str a) /\
    nth_error tags j = Some (str b) /\
    (next_object_id s < a < b)%Z.
Proof.
  intros Hwf Hr Hd HN L Hi Hj Hmi Hmj.
  rewrite (run_tags_running inputs s Hwf Hr).
  assert (Hp : last_bboxes s <> []) by now rewrite last_bboxes_nil.
  rewrite (association_tags_nonempty _ _ _ _ Hp).
  rewrite (matching_items_distinct _ _ HN).
  set (items := map (fun b => (b, matched (last_bboxes s) b)) (formatted inputs)).
  set (ids := assigned_ids (registry_ids s) (next_object_id s) items).
  assert (Ii : nth_error items i = Some (bi, None))
    by (unfold items; rewrite nth_error_map, Hi; simpl; now rewrite Hmi).
  assert (Ij : nth_error items j = Some (bj, None))
    by (unfold items; rewrite nth_error_map, Hj; simpl; now rewrite Hmj).
  pose proof (wf_ids_bounded s Hwf) as HF.
  assert (Hn : (0 <= next_object_id s)%Z) by apply Hwf.
  assert (Htag : forall q k, nth_error items q = Some (k, None) ->
             nth_error (replace_duplicates [] (map str ids)) q
             = Some (str (next_object_id s + 1
                          + Z.of_nat (unmatched (firstn q items))))).
  { intros q k Hq.
    destruct (assigned_ids_unmatched (registry_ids s) items
                (next_object_id s) q k HF Hn Hq) as (id & E & _ & Hnew).
    fold ids in E, Hnew.
    pose proof (assigned_ids_unmatched_value (registry_ids s) items
                  (next_object_id s) q k Hq) as E'.
    fold ids in E'. rewrite E in E'. injection E' as ->.
    rewrite (tag_of_position ids q _ E).
    now destruct (in_dec Z.eq_dec _ (firstn q ids)). }
  eexists _, _, _. split; [reflexivity|].
  split; [exact (Htag i bi Ii)|]. split; [exact (Htag j bj Ij)|].
  pose proof (unmatched_firstn_lt items i j bi L Ii). lia.
Qed.

(** *** The threshold *)

Lemma rint_positive (x : Q) : (1 <= rint x)%Z <-> (1 # 2) < x.
Proof.
  unfold rint.
  pose proof (Qfloor_le x) as Hlo. pose proof (Qlt_floor x) as Hhi.
  set (f := Qfloor x) in *.
  assert (Hpos : 0 < inject_Z f -> (1 <= f)%Z).
  { intros H. change 0 with (inject_Z 0) in H. rewrite <- Zlt_Qlt in H. lia. }
  assert (Hneg : - (1) < inject_Z f -> (0 <= f)%Z).
  { intros H. change (- (1)) with (inject_Z (-1)) in H.
    rewrite <- Zlt_Qlt in H. lia. }
  assert (Hup : forall z, (1 <= z)%Z -> 1 <= inject_Z z).
  { intros z H. change 1 with (inject_Z 1). now rewrite <- Zle_Qle. }
  assert (Hup0 : forall z, (0 <= z)%Z -> 0 <= inject_Z z).
  { intros z H. change 0 with (inject_Z 0). now rewrite <- Zle_Qle. }
  rewrite inject_Z_plus in Hhi. change (inject_Z 1) with 1 in Hhi.
  destruct (Qcompare_spec (x - inject_Z f) (1 # 2)) as [E|E|E].
  - destruct (Z.even f) eqn:Ev.
    + split.
      * intros H. apply Hup in H. lra.
      * intros H. apply Hpos. lra.
    + split.
      * intros H. assert (H0 : (0 <= f)%Z) by lia. apply Hup0 in H0.
        assert (Hnz : f <> 0%Z) by (intros Ez; rewrite Ez in Ev; discriminate Ev).
        assert (H1 : (1 <= f)%Z) by lia. apply Hup in H1. lra.
      * intros H. assert (H1 : (1 <= f)%Z) by (apply Hpos; lra). lia.
  - split.
    + intros H. apply Hup in H. lra.
    + intros H. apply Hpos. lra.
  - split.
    + intros H. assert (H0 : (0 <= f)%Z) by lia. apply Hup0 in H0. lra.
    + intros H. assert (H0 : (0 <= f)%Z) by (apply Hneg; lra). lia.
Qed.

Lemma tenth_le (r : Z) :
  (1 # 10) <= inject_Z r / inject_Z 10 <-> (1 <= r)%Z.
Proof.
  unfold Qle, Qdiv, Qmult, Qinv, inject_Z. simpl. lia.
Qed.

Lemma threshold_test (m : Q) :
  Qle_bool iou_thresh (round1 m) = true <-> (1 # 20) < m.
Proof.
  rewrite Qle_bool_iff. unfold iou_thresh, round1.
  rewrite tenth_le, rint_positive.
  change (inject_Z 10) with (10 # 1). split; lra.
Qed.

(** X9.  With exact arithmetic, the test
    [round(max(ious), 1) >= self.iou_thresh] with the threshold 0.1 holds
    exactly when the maximum IoU is above 0.05: the rounding to one decimal
    moves the effective threshold from 0.1 to 0.05, and an IoU of exactly
    0.05 is rounded down to 0.0 and does not match.  So the index stored
    for a box is [None] exactly when its best IoU is at most 0.05. *)
Theorem X9_effective_threshold :
  (forall m, Qle_bool iou_thresh (round1 m) = true <-> (1 # 20) < m) /\
  (forall ious m,
      py_max ious = Ok m ->
      (highest_iou_index ious = Ok None <-> m <= (1 # 20))).
Proof.
  split; [exact threshold_test|].
  intros ious m Hm. unfold highest_iou_index. rewrite Hm.
  assert (Hi : ious <> []) by (intros ->; discriminate Hm).
  destruct (max_argmax ious Hi) as (m' & i & _ & Ha & _). rewrite Ha.
  destruct (Qle_bool iou_thresh (round1 m)) eqn:E.
  - apply threshold_test in E. split; [discriminate|]. intros H. lra.
  - split; [|reflexivity]. intros _.
    destruct (Qlt_le_dec (1 # 20) m) as [L|G]; [|assumption].
    apply threshold_test in L. congruence.
Qed.

(** X11.  After a call of [run] that returns, on a well-formed object, the
    box stored with every track of the registry is the box that the
    track's tracker returned, with success, on the frame of this call: the
    box of a detection is used to initialize a tracker and to compute IoUs,
    and is never what a track keeps as its stored box after the call. *)
Theorem X11_stored_boxes_come_from_trackers
        (inputs : Inputs) (s : OpenCVTracker) (tags : list string) :
  wf s -> fst (run inputs s) = Ok tags ->
  forall id t b,
    In (id, (t, b)) (tracking_dict (snd (run inputs s))) ->
    exists t0, cv2_update t0 (img inputs) = (t, (true, b)).
Proof.
  intros Hwf. rewrite run_track_frame.
  destruct (first_frame_or_not s) eqn:Ef.
  - rewrite (track_frame_first _ _ _ Hwf Ef). cbn [fst snd tracking_dict].
    intros _ id t b H. apply survivors_in_iff in H.
    destruct H as (t0 & b0 & _ & H). eauto.
  - rewrite (track_frame_running _ _ _ Hwf Ef).
    destruct (_if_new_bbox_add_track (formatted inputs) (img inputs) s)
      as [[tags'|e] s1]; cbn [fst snd]; [|discriminate].
    intros _ id t b H. unfold after_update in H. cbn [tracking_dict] in H.
    apply survivors_in_iff in H.
    destruct H as (t0 & b0 & _ & H). eauto.
Qed.

Lemma new_tracks_length (frame : Frame) (items : list (Box * option nat))
      (n : Z) :
  List.length (new_tracks frame n items) = unmatched items.
Proof.
  revert n. induction items as [|[k [v|]] items IH]; intros n;
    rewrite ?unmatched_cons; cbn [new_tracks snd List.length]; auto.
Qed.

(** X12.  The association only appends to the registry: on a well-formed
    object, whatever it returns, the registry it leaves is the registry it
    found, entry for entry, followed by the new tracks; the counter has
    grown by the number of new tracks; and each new track holds a box of
    the frame with the MOSSE tracker initialized on it, under an id above
    the old counter and at most the new one.  A matched detection changes
    neither the tracker nor the stored box of its track. *)
Theorem X12_association_only_appends
        (bs : list Box) (frame : Frame) (s : OpenCVTracker) :
  wf s ->
  exists extra,
    tracking_dict (snd (_if_new_bbox_add_track bs frame s))
    = tracking_dict s ++ extra /\
    next_object_id (snd (_if_new_bbox_add_track bs frame s))
    = (next_object_id s + Z.of_nat (List.length extra))%Z /\
    first_frame_or_not (snd (_if_new_bbox_add_track bs frame s))
    = first_frame_or_not s /\
    (forall id t b,
        In (id, (t, b)) extra ->
        In b bs /\ t = cv2_init (cv2_create MOSSE) frame b /\
        (next_object_id s < id
         <= next_object_id (snd (_if_new_bbox_add_track bs frame s)))%Z).
Proof.
  intros Hwf.
  assert (Hnone : _if_new_bbox_add_track bs frame s
                  = (fst (_if_new_bbox_add_track bs frame s), s) ->
                  exists extra,
                    tracking_dict (snd (_if_new_bbox_add_track bs frame s))
                    = tracking_dict s ++ extra /\
                    next_object_id (snd (_if_new_bbox_add_track bs frame s))
                    = (next_object_id s + Z.of_nat (List.length extra))%Z /\
                    first_frame_or_not (snd (_if_new_bbox_add_track bs frame s))
                    = first_frame_or_not s /\
                    (forall id t b,
                        In (id, (t, b)) extra ->
                        In b bs /\ t = cv2_init (cv2_create MOSSE) frame b /\
                        (next_object_id s < id
                         <= next_object_id
                              (snd (_if_new_bbox_add_track bs frame s)))%Z)).
  { intros E. rewrite E. cbn [snd]. exists [].
    rewrite app_nil_r. simpl. repeat split; try lia; contradiction. }
  destruct (tracking_dict s) as [|x d] eqn:Ed.
  - apply Hnone. destruct bs as [|b bs].
    + now rewrite add_track_no_boxes.
    + rewrite add_track_empty_registry; [reflexivity|assumption|congruence].
  - clear Hnone.
    destruct (add_track_spec bs frame s Hwf) as [E Hwf']; [congruence|].
    rewrite E in *. cbn [snd tracking_dict next_object_id first_frame_or_not]
      in *.
    exists (new_tracks frame (next_object_id s)
                       (matching_items (last_bboxes s) bs)).
    rewrite new_tracks_length, Ed.
    repeat split.
    + apply new_tracks_in in H. destruct H as (H & _).
      apply matching_items_in in H. tauto.
    + apply new_tracks_in in H. tauto.
    + apply new_tracks_in in H. tauto.
    + destruct Hwf' as (_ & HF & _). unfold registry_ids in HF.
      cbn [tracking_dict next_object_id] in HF.
      rewrite Forall_forall in HF. apply HF.
      unfold dict_keys. rewrite map_app. apply in_or_app. right.
      change id with (fst (id, (t, b))). now apply in_map.
Qed.
End MoreProperties.

(** ** The further properties on the concrete world *)

Lemma s_none_wf : wf s_none.
Proof.
  split; [|split].
  - vm_compute registry_ids. constructor.
  - vm_compute registry_ids. constructor.
  - vm_compute next_object_id. lia.
Qed.

Lemma X1_witness :
  _create_tracker_by_name (W := demo) "MOSSE" = Some (cv2_create MOSSE).
Proof.
  apply (proj1 (X1_create_tracker_by_name (W := demo) "MOSSE")
               6%nat MOSSE eq_refl eq_refl).
Defined.

Lemma X4_witness :
  exists s',
    update_all calm s_one = (Ok tt, s') /\
    next_object_id s' = next_object_id s_one.
Proof.
  destruct (X4_update_pass (W := demo) calm s_one (proj1 s_one_inv))
    as (s' & E & Hn & _).
  exists s'. split; assumption.
Defined.

Lemma X5_witness :
  fst (run (frame_of calm [boxA]) s_none) = Raise ValueError.
Proof.
  apply (proj2 (X5_run_raises_only_on_empty_registry
                  (W := demo) (frame_of calm [boxA]) s_none ValueError
                  s_none_wf)).
  repeat split; try reflexivity. discriminate.
Defined.

Lemma X6_witness : NoDup (labelled ["1"; ""]%string).
Proof.
  apply (X6_labels_are_distinct (W := demo) (frame_of calm [boxA'; boxA''])
                                s_one _ (proj1 s_one_inv)).
  vm_compute. reflexivity.
Defined.

Lemma X7_witness :
  exists tags,
    fst (run (frame_of calm [boxA; boxA]) s_one) = Ok tags /\
    (List.length tags <= 2)%nat.
Proof.
  destruct (X7_one_tag_per_distinct_box (W := demo)
              (frame_of calm [boxA; boxA]) s_one
              (proj1 s_one_inv) eq_refl s_one_registry)
    as (tags & E & Hle & _).
  exists tags. split; assumption.
Defined.

Lemma X8_witness :
  exists tags a b,
    fst (run (frame_of calm [boxB; (1 # 2, 0, 1, 2 # 5)]) s_one) = Ok tags /\
    nth_error tags 0 = Some (str a) /\
    nth_error tags 1 = Some (str b) /\
    (next_object_id s_one < a < b)%Z.
Proof.
  assert (HN : NoDup (formatted
                        (frame_of calm [boxB; (1 # 2, 0, 1, 2 # 5)]))).
  { vm_compute. constructor.
    - simpl. intros [H|[]]. discriminate H.
    - constructor; [simpl; tauto|constructor]. }
  apply (X8_new_ids_follow_input_order
           (W := demo) (frame_of calm [boxB; (1 # 2, 0, 1, 2 # 5)]) s_one
           0 1 (px boxB) (px (1 # 2, 0, 1, 2 # 5))
           (proj1 s_one_inv) eq_refl s_one_registry HN).
  - lia.
  - vm_compute. reflexivity.
  - vm_compute. reflexivity.
  - vm_compute. reflexivity.
  - vm_compute. reflexivity.
Defined.

Lemma X9_witness : highest_iou_index [1 # 20] = Ok None.
Proof.
  apply (proj2 X9_effective_threshold [1 # 20] (1 # 20) eq_refl).
  apply Qle_refl.
Defined.

Lemma X10_witness : running (snd (run (frame_of calm []) __init__)).
Proof.
  apply (X10_running_after_run (W := demo) (frame_of calm []) __init__ init_wf).
Defined.

Lemma X11_witness :
  exists t0, cv2_update t0 calm = (Some (px boxA), (true, px boxA)).
Proof.
  apply (X11_stored_boxes_come_from_trackers
           (W := demo) (frame_of calm [boxA']) s_one ["1"%string]
           (proj1 s_one_inv) eq_refl 1%Z (Some (px boxA)) (px boxA)).
  vm_compute. left. reflexivity.
Defined.

Lemma X12_witness :
  exists extra,
    tracking_dict (snd (_if_new_bbox_add_track [px boxB] calm s_one))
    = tracking_dict s_one ++ extra.
Proof.
  destruct (X12_association_only_appends (W := demo) [px boxB] calm s_one
              (proj1 s_one_inv)) as (extra & E & _).
  exists extra. exact E.
Defined.
